(** * Upload helper of the Max bot API client: model and verification

    Source: [src/core/helpers/upload.ts] (class [Upload]).

    The file models
    - the source normalizer [getStreamFromSource],
    - the session manager [upload] with its deadline timer,
    - the chunked transmitter [uploadFromStream], as an event-driven
      state machine over the events Node delivers to the listeners the
      code registers ('data', 'end', 'error'), the settlements of the
      [fetch] and [json()] promises the 'data' listener awaits, and the
      passage of time,
    - the buffer transmitter [uploadFromBuffer],
    - the public methods [image], [video], [file], [audio].

    Numbers are modelled as [Z] (byte counts, statuses and millisecond
    delays are integers in every use the code makes of them). *)

From stdpp Require Import gmap strings list pretty.
From Stdlib Require Import ZArith Lia Ascii.

Open Scope Z_scope.

(** ** JavaScript values that cross the wire *)

(** What [Response.json()] yields.  Numbers are integer valued here. *)
#[local] Unset Elimination Schemes.
Inductive json :=
| JNull
| JBool (b : bool)
| JNum (n : Z)
| JStr (s : string)
| JArr (items : list json)
| JObj (fields : list (string * json)).
#[local] Set Elimination Schemes.

(** JavaScript truthiness, as used by [!uploadData]: [null], [false],
    [0] and the empty string are falsy, arrays and objects never are. *)
Definition truthy (v : json) : bool :=
  match v with
  | JNull => false
  | JBool b => b
  | JNum n => negb (n =? 0)
  | JStr s => negb (String.eqb s EmptyString)
  | JArr _ => true
  | JObj _ => true
  end.

(** The values that can be thrown or passed to [reject]. *)
Inductive error :=
| Error (message : string)           (* new Error(message) *)
| MaxError (status : Z) (body : json) (* new MaxError(status, error) *)
| AbortError                          (* fetch or body read cut by the signal *)
| FetchError (reason : string)        (* fetch rejected: transport fault *)
| SyntaxError                         (* json() on a body that is not JSON *)
| FsError (code : string).            (* stat rejection or stream 'error' *)

Inductive Promise :=
| Pending
| Resolved (v : json)
| Rejected (e : error).

Definition chunk := list Byte.byte.

(** [chunk.length] *)
Definition chunk_length (c : chunk) : Z := Z.of_nat (length c).

(** ** Types of the module *)

Inductive PathLike :=
| PStr (p : string)
| PBuf (b : list Byte.byte).

(** An [fs.ReadStream]: the path it was opened on and the chunks it
    will hand to its 'data' listeners, in order. *)
Record ReadStream := {
  rs_path : PathLike;
  rs_chunks : list chunk;
}.

(** [type FileSource = string | fs.ReadStream | Buffer] *)
Inductive FileSource :=
| SrcPath (p : string)
| SrcStream (rs : ReadStream)
| SrcBuffer (b : list Byte.byte).

Record FileStream := {
  stream : ReadStream;
  fs_fileName : string;
  contentLength : Z;
}.

Record FileBuffer := {
  buffer : list Byte.byte;
  fb_fileName : string;
}.

(** [type UploadFile = FileStream | FileBuffer] *)
Inductive UploadFile :=
| UFStream (f : FileStream)
| UFBuffer (f : FileBuffer).

Definition fileName (f : UploadFile) : string :=
  match f with
  | UFStream f => fs_fileName f
  | UFBuffer f => fb_fileName f
  end.

(** [UploadType], imported from the network layer. *)
Inductive UploadType := image_t | video_t | file_t | audio_t.

Definition DEFAULT_UPLOAD_TIMEOUT : Z := 20000.

(** Node's [setTimeout]: a delay that is not between 1 and 2^31 - 1 ms
    is replaced by 1 ms. *)
Definition TIMEOUT_MAX : Z := 2147483647.

Definition setTimeout_delay (after : Z) : Z :=
  if (1 <=? after) && (after <=? TIMEOUT_MAX) then after else 1.

(** ** The world outside the module *)

(** What [fs.Stats] is used for: [isFile()] and [size]. *)
Record Stats := {
  isFile : bool;
  size : Z;
}.

(** The collaborators the code calls: the file system, the identifier
    generator and the platform API.  [stat] answers [inl code] when
    [fs.promises.stat] rejects. *)
Record Env := {
  stat : PathLike → string + Stats;
  file_chunks : string → list chunk;
  randomUUID : string;
  getUploadUrl : UploadType → error + string;
}.

(** [fs.createReadStream(path)] *)
Definition createReadStream (env : Env) (p : string) : ReadStream :=
  {| rs_path := PStr p; rs_chunks := file_chunks env p |}.

(** Node's [path.basename] on POSIX paths: trailing separators are
    skipped, then everything after the last remaining separator is kept. *)
Definition is_sep (c : Ascii.ascii) : bool := Ascii.eqb c "/"%char.

Fixpoint drop_seps (l : list Ascii.ascii) : list Ascii.ascii :=
  match l with
  | c :: r => if is_sep c then drop_seps r else l
  | [] => []
  end.

Fixpoint take_segment (l : list Ascii.ascii) : list Ascii.ascii :=
  match l with
  | c :: r => if is_sep c then [] else c :: take_segment r
  | [] => []
  end.

Definition basename (p : string) : string :=
  String.string_of_list_ascii
    (rev (take_segment (drop_seps (rev (String.list_ascii_of_string p))))).

(** ** Source normalizer *)

Definition not_a_file_message (name : string) : string :=
  "Failed to upload " +:+ name +:+ ". Not a file".

Definition getStreamFromSource (env : Env) (source : FileSource)
  : error + UploadFile :=
  match source with
  | SrcPath p =>
      match stat env (PStr p) with
      | inl code => inl (FsError code)
      | inr st =>
          let fileName := basename p in
          if negb (isFile st) then inl (Error (not_a_file_message fileName))
          else
            inr (UFStream {| stream := createReadStream env p;
                             fs_fileName := fileName;
                             contentLength := size st |})
      end
  | SrcBuffer b =>
      inr (UFBuffer {| buffer := b; fb_fileName := randomUUID env |})
  | SrcStream rs =>
      match stat env (rs_path rs) with
      | inl code => inl (FsError code)
      | inr st =>
          let fileName :=
            match rs_path rs with
            | PStr p => basename p
            | PBuf _ => randomUUID env
            end in
          inr (UFStream {| stream := rs;
                           fs_fileName := fileName;
                           contentLength := size st |})
      end
  end.

(** ** Requests sent to the upload server *)

Record FormField := {
  ff_name : string;
  ff_blob : list Byte.byte;
  ff_filename : string;
}.

Inductive Body :=
| RawBody (c : chunk)
| FormBody (fields : list FormField).

Record Request := {
  req_url : string;
  req_method : string;
  req_body : Body;
  req_headers : list (string * string);
}.

(** The one-character string holding a double quote (code 34). *)
Definition dquote : string :=
  String (Ascii.ascii_of_nat 34) EmptyString.

Definition content_disposition (name : string) : string :=
  "attachment; filename=" +:+ dquote +:+ name +:+ dquote.

Definition content_range (startBite endBite total : Z) : string :=
  "bytes " +:+ pretty startBite +:+ "-" +:+ pretty endBite +:+ "/" +:+ pretty total.

(** The request the 'data' listener builds for one chunk. *)
Definition chunk_request (f : FileStream) (uploadUrl : string)
    (c : chunk) (startBite endBite : Z) : Request :=
  {| req_url := uploadUrl;
     req_method := "POST";
     req_body := RawBody c;
     req_headers :=
       [("Content-Disposition", content_disposition (fs_fileName f));
        ("Content-Range", content_range startBite endBite (contentLength f))] |}.

(** ** Chunked stream transmitter *)

(** Where an invocation of the 'data' listener is suspended. *)
Inductive Phase :=
| AwaitFetch                    (* await fetch(uploadUrl, ...) *)
| AwaitErrorBody (status : Z)   (* await uploadRes.json(), status >= 400 *)
| AwaitDataBody.                (* uploadData = await uploadRes.json() *)

(** A suspended invocation: the length of its chunk and its await point. *)
Record Listener := {
  l_len : Z;
  l_phase : Phase;
}.

(** What can happen while [uploadFromStream] is running.  Invocations of
    the 'data' listener are named by the index of the request they sent. *)
Inductive Event :=
| EData                                (* the stream emits 'data' *)
| EEnd                                 (* the stream emits 'end' *)
| EStreamErr (code : string)           (* the stream emits 'error' *)
| EHeaders (k : nat) (status : Z)      (* fetch of request k resolves *)
| EFetchFail (k : nat) (reason : string) (* fetch of request k rejects *)
| EBody (k : nat) (parsed : option json) (* json() of response k settles *)
| ETick (ms : Z).                      (* ms milliseconds pass *)

Record SState := {
  (* variables of the promise executor *)
  prevChunk : Z;
  uploadData : json;
  (* file.stream *)
  st_pending : list chunk;
  st_flowing : bool;
  st_ended : bool;
  st_destroyed : bool;
  (* the network *)
  st_requests : list Request;
  st_inflight : gmap nat Listener;
  (* the promise returned to the caller, and the rejected promises the
     'data' listener returned to the emitter, which drops them *)
  st_promise : Promise;
  st_unhandled : list error;
  (* uploadController and uploadInterval *)
  st_aborted : bool;
  st_timer : option Z;
  st_now : Z;
}.

(** Field updates. *)
Definition with_prevChunk (x : Z) (s : SState) : SState :=
  {| prevChunk := x; uploadData := uploadData s;
     st_pending := st_pending s; st_flowing := st_flowing s;
     st_ended := st_ended s; st_destroyed := st_destroyed s;
     st_requests := st_requests s; st_inflight := st_inflight s;
     st_promise := st_promise s; st_unhandled := st_unhandled s;
     st_aborted := st_aborted s; st_timer := st_timer s; st_now := st_now s |}.

Definition with_uploadData (x : json) (s : SState) : SState :=
  {| prevChunk := prevChunk s; uploadData := x;
     st_pending := st_pending s; st_flowing := st_flowing s;
     st_ended := st_ended s; st_destroyed := st_destroyed s;
     st_requests := st_requests s; st_inflight := st_inflight s;
     st_promise := st_promise s; st_unhandled := st_unhandled s;
     st_aborted := st_aborted s; st_timer := st_timer s; st_now := st_now s |}.

Definition with_pending (x : list chunk) (s : SState) : SState :=
  {| prevChunk := prevChunk s; uploadData := uploadData s;
     st_pending := x; st_flowing := st_flowing s;
     st_ended := st_ended s; st_destroyed := st_destroyed s;
     st_requests := st_requests s; st_inflight := st_inflight s;
     st_promise := st_promise s; st_unhandled := st_unhandled s;
     st_aborted := st_aborted s; st_timer := st_timer s; st_now := st_now s |}.

Definition with_flowing (x : bool) (s : SState) : SState :=
  {| prevChunk := prevChunk s; uploadData := uploadData s;
     st_pending := st_pending s; st_flowing := x;
     st_ended := st_ended s; st_destroyed := st_destroyed s;
     st_requests := st_requests s; st_inflight := st_inflight s;
     st_promise := st_promise s; st_unhandled := st_unhandled s;
     st_aborted := st_aborted s; st_timer := st_timer s; st_now := st_now s |}.

Definition with_ended (x : bool) (s : SState) : SState :=
  {| prevChunk := prevChunk s; uploadData := uploadData s;
     st_pending := st_pending s; st_flowing := st_flowing s;
     st_ended := x; st_destroyed := st_destroyed s;
     st_requests := st_requests s; st_inflight := st_inflight s;
     st_promise := st_promise s; st_unhandled := st_unhandled s;
     st_aborted := st_aborted s; st_timer := st_timer s; st_now := st_now s |}.

Definition with_destroyed (x : bool) (s : SState) : SState :=
  {| prevChunk := prevChunk s; uploadData := uploadData s;
     st_pending := st_pending s; st_flowing := st_flowing s;
     st_ended := st_ended s; st_destroyed := x;
     st_requests := st_requests s; st_inflight := st_inflight s;
     st_promise := st_promise s; st_unhandled := st_unhandled s;
     st_aborted := st_aborted s; st_timer := st_timer s; st_now := st_now s |}.

Definition with_requests (x : list Request) (s : SState) : SState :=
  {| prevChunk := prevChunk s; uploadData := uploadData s;
     st_pending := st_pending s; st_flowing := st_flowing s;
     st_ended := st_ended s; st_destroyed := st_destroyed s;
     st_requests := x; st_inflight := st_inflight s;
     st_promise := st_promise s; st_unhandled := st_unhandled s;
     st_aborted := st_aborted s; st_timer := st_timer s; st_now := st_now s |}.

Definition with_inflight (x : gmap nat Listener) (s : SState) : SState :=
  {| prevChunk := prevChunk s; uploadData := uploadData s;
     st_pending := st_pending s; st_flowing := st_flowing s;
     st_ended := st_ended s; st_destroyed := st_destroyed s;
     st_requests := st_requests s; st_inflight := x;
     st_promise := st_promise s; st_unhandled := st_unhandled s;
     st_aborted := st_aborted s; st_timer := st_timer s; st_now := st_now s |}.

Definition with_promise (x : Promise) (s : SState) : SState :=
  {| prevChunk := prevChunk s; uploadData := uploadData s;
     st_pending := st_pending s; st_flowing := st_flowing s;
     st_ended := st_ended s; st_destroyed := st_destroyed s;
     st_requests := st_requests s; st_inflight := st_inflight s;
     st_promise := x; st_unhandled := st_unhandled s;
     st_aborted := st_aborted s; st_timer := st_timer s; st_now := st_now s |}.

Definition with_unhandled (x : list error) (s : SState) : SState :=
  {| prevChunk := prevChunk s; uploadData := uploadData s;
     st_pending := st_pending s; st_flowing := st_flowing s;
     st_ended := st_ended s; st_destroyed := st_destroyed s;
     st_requests := st_requests s; st_inflight := st_inflight s;
     st_promise := st_promise s; st_unhandled := x;
     st_aborted := st_aborted s; st_timer := st_timer s; st_now := st_now s |}.

Definition with_aborted (x : bool) (s : SState) : SState :=
  {| prevChunk := prevChunk s; uploadData := uploadData s;
     st_pending := st_pending s; st_flowing := st_flowing s;
     st_ended := st_ended s; st_destroyed := st_destroyed s;
     st_requests := st_requests s; st_inflight := st_inflight s;
     st_promise := st_promise s; st_unhandled := st_unhandled s;
     st_aborted := x; st_timer := st_timer s; st_now := st_now s |}.

Definition with_timer (x : option Z) (s : SState) : SState :=
  {| prevChunk := prevChunk s; uploadData := uploadData s;
     st_pending := st_pending s; st_flowing := st_flowing s;
     st_ended := st_ended s; st_destroyed := st_destroyed s;
     st_requests := st_requests s; st_inflight := st_inflight s;
     st_promise := st_promise s; st_unhandled := st_unhandled s;
     st_aborted := st_aborted s; st_timer := x; st_now := st_now s |}.

Definition with_now (x : Z) (s : SState) : SState :=
  {| prevChunk := prevChunk s; uploadData := uploadData s;
     st_pending := st_pending s; st_flowing := st_flowing s;
     st_ended := st_ended s; st_destroyed := st_destroyed s;
     st_requests := st_requests s; st_inflight := st_inflight s;
     st_promise := st_promise s; st_unhandled := st_unhandled s;
     st_aborted := st_aborted s; st_timer := st_timer s; st_now := x |}.

(** [resolve] and [reject] act on a pending promise only.  Once the
    promise settles, [upload] leaves its [try] and the [finally] block
    clears the timer. *)
Definition settle (p : Promise) (s : SState) : SState :=
  match st_promise s with
  | Pending => with_timer None (with_promise p s)
  | _ => s
  end.

(** The 'data' listener is an [async] function: an exception inside it
    rejects the promise the listener returned to the emitter, which does
    not look at it (Node's emitters only do with [captureRejections],
    which is off unless asked for).  The invocation is over;
    [file.stream.resume()] was not reached. *)
Definition listener_throws (k : nat) (e : error) (s : SState) : SState :=
  with_inflight (delete k (st_inflight s))
    (with_unhandled (st_unhandled s ++ [e]) s).

(** The tail of the listener: [file.stream.resume(); prevChunk += chunk.length]. *)
Definition finish_chunk (k : nat) (len : Z) (s : SState) : SState :=
  with_inflight (delete k (st_inflight s))
    (with_prevChunk (prevChunk s + len)
       (with_flowing true s)).

(** [uploadController.abort()]: the signal is raised and every fetch or
    body read that carries it rejects with an abort error, inside the
    listener invocation that awaits it. *)
Definition abort (s : SState) : SState :=
  with_inflight ∅
    (with_unhandled
       (st_unhandled s ++ replicate (base.size (st_inflight s)) AbortError)
       (with_aborted true (with_timer None s))).

(** The 'end' listener. *)
Definition on_end (s : SState) : SState :=
  if negb (truthy (uploadData s))
  then settle (Rejected (Error "Failed to upload")) s
  else settle (Resolved (uploadData s)) s.

(** The 'data' listener up to its first [await]. *)
Definition on_data (f : FileStream) (uploadUrl : string)
    (c : chunk) (s : SState) : SState :=
  let s := with_flowing false s in                   (* file.stream.pause() *)
  let startBite := prevChunk s + 1 in
  let endBite := prevChunk s + chunk_length c in
  if st_aborted s then
    (* fetch with a raised signal rejects without sending anything *)
    with_unhandled (st_unhandled s ++ [AbortError]) s
  else
    let k := length (st_requests s) in
    with_inflight
      (<[k := {| l_len := chunk_length c; l_phase := AwaitFetch |}]> (st_inflight s))
      (with_requests
         (st_requests s ++ [chunk_request f uploadUrl c startBite endBite]) s).

(** The listener after [fetch] resolved with a response of the given status. *)
Definition on_headers (k : nat) (l : Listener) (status : Z) (s : SState) : SState :=
  if 400 <=? status then
    with_inflight (<[k := {| l_len := l_len l; l_phase := AwaitErrorBody status |}]> (st_inflight s)) s
  else if negb (truthy (uploadData s)) then
    with_inflight (<[k := {| l_len := l_len l; l_phase := AwaitDataBody |}]> (st_inflight s)) s
  else finish_chunk k (l_len l) s.

(** One event of the run.  [None]: the event cannot happen in this state. *)
Definition sstep (f : FileStream) (uploadUrl : string)
    (s : SState) (e : Event) : option SState :=
  match e with
  | EData =>
      if st_flowing s && negb (st_destroyed s) then
        match st_pending s with
        | c :: rest => Some (on_data f uploadUrl c (with_pending rest s))
        | [] => None
        end
      else None
  | EEnd =>
      (* 'end' follows the last 'data' whether or not the listener has
         paused the stream in between *)
      if negb (st_destroyed s) && negb (st_ended s) then
        match st_pending s with
        | [] => Some (on_end (with_ended true s))
        | _ :: _ => None
        end
      else None
  | EStreamErr code =>
      if negb (st_destroyed s) && negb (st_ended s) then
        Some (settle (Rejected (FsError code)) (with_destroyed true s))
      else None
  | EHeaders k status =>
      match st_inflight s !! k with
      | Some l =>
          match l_phase l with
          | AwaitFetch => Some (on_headers k l status s)
          | _ => None
          end
      | None => None
      end
  | EFetchFail k reason =>
      match st_inflight s !! k with
      | Some l =>
          match l_phase l with
          | AwaitFetch => Some (listener_throws k (FetchError reason) s)
          | _ => None
          end
      | None => None
      end
  | EBody k parsed =>
      match st_inflight s !! k with
      | Some l =>
          match l_phase l, parsed with
          | AwaitFetch, _ => None
          | _, None => Some (listener_throws k SyntaxError s)
          | AwaitErrorBody status, Some err =>
              Some (listener_throws k (MaxError status err) s)
          | AwaitDataBody, Some v =>
              Some (finish_chunk k (l_len l) (with_uploadData v s))
          end
      | None => None
      end
  | ETick ms =>
      if 0 <=? ms then
        let s := with_now (st_now s + ms) s in
        match st_timer s with
        | Some deadline => if deadline <=? st_now s then Some (abort s) else Some s
        | None => Some s
        end
      else None
  end.

Fixpoint srun (f : FileStream) (uploadUrl : string)
    (s : SState) (evs : list Event) : option SState :=
  match evs with
  | [] => Some s
  | e :: rest =>
      match sstep f uploadUrl s e with
      | Some s' => srun f uploadUrl s' rest
      | None => None
      end
  end.

(** [options?.timeout || DEFAULT_UPLOAD_TIMEOUT]: among integers and
    [undefined], the falsy values are [undefined] and [0]. *)
Definition timeoutDelay (timeout : option Z) : Z :=
  match timeout with
  | Some t => if t =? 0 then DEFAULT_UPLOAD_TIMEOUT else t
  | None => DEFAULT_UPLOAD_TIMEOUT
  end.

(** The state in which [uploadFromStream] returns its promise: the three
    listeners are registered (registering 'data' starts the flow), and
    the timer that [upload] set with [setTimeout(..., delay)] is armed. *)
Definition uploadFromStream (f : FileStream) (delay : Z) : SState :=
  {| prevChunk := -1; uploadData := JNull;
     st_pending := rs_chunks (stream f); st_flowing := true;
     st_ended := false; st_destroyed := false;
     st_requests := []; st_inflight := ∅;
     st_promise := Pending; st_unhandled := [];
     st_aborted := false; st_timer := Some (setTimeout_delay delay);
     st_now := 0 |}.

(** ** Buffer transmitter *)

Inductive BPhase :=
| BFetch      (* await fetch(uploadUrl, ...) *)
| BBody       (* await res.json() *)
| BDone.

Record BState := {
  b_phase : BPhase;
  b_requests : list Request;
  b_promise : Promise;
  b_aborted : bool;
  b_timer : option Z;
  b_now : Z;
}.

(** [formData.append('data', new Blob([file.buffer]), file.fileName)],
    posted as the body; no headers are set by the code. *)
Definition buffer_request (f : FileBuffer) (uploadUrl : string) : Request :=
  {| req_url := uploadUrl;
     req_method := "POST";
     req_body := FormBody [{| ff_name := "data";
                              ff_blob := buffer f;
                              ff_filename := fb_fileName f |}];
     req_headers := [] |}.

(** The function has run up to [await fetch(...)]. *)
Definition uploadFromBuffer (f : FileBuffer) (uploadUrl : string) (delay : Z) : BState :=
  {| b_phase := BFetch;
     b_requests := [buffer_request f uploadUrl];
     b_promise := Pending;
     b_aborted := false;
     b_timer := Some (setTimeout_delay delay);
     b_now := 0 |}.

(** The async function completes: its promise settles and [finally]
    clears the timer. *)
Definition b_settle (p : Promise) (s : BState) : BState :=
  {| b_phase := BDone; b_requests := b_requests s; b_promise := p;
     b_aborted := b_aborted s; b_timer := None; b_now := b_now s |}.

Definition b_abort (s : BState) : BState :=
  let s := {| b_phase := b_phase s; b_requests := b_requests s;
              b_promise := b_promise s; b_aborted := true;
              b_timer := None; b_now := b_now s |} in
  match b_phase s with
  | BDone => s
  | _ => b_settle (Rejected AbortError) s
  end.

Definition bstep (s : BState) (e : Event) : option BState :=
  match e with
  | EHeaders O _ =>
      match b_phase s with
      | BFetch =>
          Some {| b_phase := BBody; b_requests := b_requests s;
                  b_promise := b_promise s; b_aborted := b_aborted s;
                  b_timer := b_timer s; b_now := b_now s |}
      | _ => None
      end
  | EFetchFail O reason =>
      match b_phase s with
      | BFetch => Some (b_settle (Rejected (FetchError reason)) s)
      | _ => None
      end
  | EBody O parsed =>
      match b_phase s, parsed with
      | BBody, Some v => Some (b_settle (Resolved v) s)
      | BBody, None => Some (b_settle (Rejected SyntaxError) s)
      | _, _ => None
      end
  | ETick ms =>
      if 0 <=? ms then
        let s := {| b_phase := b_phase s; b_requests := b_requests s;
                    b_promise := b_promise s; b_aborted := b_aborted s;
                    b_timer := b_timer s; b_now := b_now s + ms |} in
        match b_timer s with
        | Some deadline => if deadline <=? b_now s then Some (b_abort s) else Some s
        | None => Some s
        end
      else None
  | _ => None
  end.

Fixpoint brun (s : BState) (evs : list Event) : option BState :=
  match evs with
  | [] => Some s
  | e :: rest =>
      match bstep s e with
      | Some s' => brun s' rest
      | None => None
      end
  end.

(** ** Session manager and public methods *)

Inductive NetCall :=
| GetUploadUrl (type : UploadType)
| Fetch (r : Request).

(** A call of a public method, as far as it has got. *)
Inductive Session :=
| Passthrough (url : string)
| Failed (e : error) (net : list NetCall)
| Streaming (type : UploadType) (f : FileStream) (uploadUrl : string) (s : SState)
| Buffering (type : UploadType) (f : FileBuffer) (uploadUrl : string) (s : BState).

Definition upload (env : Env) (type : UploadType) (file : UploadFile)
    (timeout : option Z) : Session :=
  match getUploadUrl env type with
  | inl e => Failed e [GetUploadUrl type]
  | inr uploadUrl =>
      let delay := timeoutDelay timeout in
      match file with
      | UFStream f => Streaming type f uploadUrl (uploadFromStream f delay)
      | UFBuffer f => Buffering type f uploadUrl (uploadFromBuffer f uploadUrl delay)
      end
  end.

Definition upload_source (env : Env) (type : UploadType) (source : FileSource)
    (timeout : option Z) : Session :=
  match getStreamFromSource env source with
  | inl e => Failed e []
  | inr fileBlob => upload env type fileBlob timeout
  end.

(** [UploadFromUrlOrSourceOptions] *)
Inductive UrlOrSource :=
| FromUrl (url : string)
| FromSource (source : FileSource).

Definition image (env : Env) (options : UrlOrSource) (timeout : option Z) : Session :=
  match options with
  | FromUrl url => Passthrough url
  | FromSource source => upload_source env image_t source timeout
  end.

Definition video (env : Env) (source : FileSource) (timeout : option Z) : Session :=
  upload_source env video_t source timeout.

Definition file (env : Env) (source : FileSource) (timeout : option Z) : Session :=
  upload_source env file_t source timeout.

Definition audio (env : Env) (source : FileSource) (timeout : option Z) : Session :=
  upload_source env audio_t source timeout.

(** The promise the public method returned. *)
Definition session_promise (c : Session) : Promise :=
  match c with
  | Passthrough url => Resolved (JObj [("url", JStr url)])
  | Failed e _ => Rejected e
  | Streaming _ _ _ s => st_promise s
  | Buffering _ _ _ s => b_promise s
  end.

(** Every network call the method has made. *)
Definition session_network (c : Session) : list NetCall :=
  match c with
  | Passthrough _ => []
  | Failed _ net => net
  | Streaming type _ _ s => GetUploadUrl type :: map Fetch (st_requests s)
  | Buffering type _ _ s => GetUploadUrl type :: map Fetch (b_requests s)
  end.

(** A settled call only sees time pass. *)
Definition session_step (c : Session) (e : Event) : option Session :=
  match c with
  | Streaming type f uploadUrl s =>
      match sstep f uploadUrl s e with
      | Some s' => Some (Streaming type f uploadUrl s')
      | None => None
      end
  | Buffering type f uploadUrl s =>
      match bstep s e with
      | Some s' => Some (Buffering type f uploadUrl s')
      | None => None
      end
  | _ =>
      match e with
      | ETick ms => if 0 <=? ms then Some c else None
      | _ => None
      end
  end.

Fixpoint session_run (c : Session) (evs : list Event) : option Session :=
  match evs with
  | [] => Some c
  | e :: rest =>
      match session_step c e with
      | Some c' => session_run c' rest
      | None => None
      end
  end.

(** ** Specification-side vocabulary *)

(** Total number of bytes in a list of chunks. *)
Definition total_length (cs : list chunk) : Z :=
  foldr (λ c acc, chunk_length c + acc) 0 cs.

(** The requests the spec prescribes for chunks [cs] whose first byte
    has index [offset]: one per chunk, declaring consecutive ranges. *)
Fixpoint range_requests (f : FileStream) (uploadUrl : string)
    (offset : Z) (cs : list chunk) : list Request :=
  match cs with
  | [] => []
  | c :: rest =>
      chunk_request f uploadUrl c offset (offset + chunk_length c - 1)
      :: range_requests f uploadUrl (offset + chunk_length c) rest
  end.

(** The request for the chunk of index [i], by the spec's formula: it
    starts where the chunks before it stop. *)
Definition spec_request (f : FileStream) (uploadUrl : string) (i : nat) : option Request :=
  match rs_chunks (stream f) !! i with
  | Some c =>
      let before := total_length (take i (rs_chunks (stream f))) in
      Some (chunk_request f uploadUrl c before (before + chunk_length c - 1))
  | None => None
  end.

(** What the 'end' listener does with the retained payload. *)
Definition end_result (v : json) : Promise :=
  if truthy v then Resolved v else Rejected (Error "Failed to upload").

(** Bodies that [json()] parsed, and statuses that [fetch] delivered,
    in order of arrival. *)
Definition parsed_body (e : Event) : option json :=
  match e with
  | EBody _ (Some v) => Some v
  | _ => None
  end.

Definition delivered_status (e : Event) : option Z :=
  match e with
  | EHeaders _ status => Some status
  | _ => None
  end.

Definition data_bodies (evs : list Event) : list json := omap parsed_body evs.

Definition statuses (evs : list Event) : list Z := omap delivered_status evs.

(** After a run in which nothing failed: every status was below 400 and
    [uploadData] is the first truthy body, if there was one. *)
Definition trace_ok (evs : list Event) (s : SState) : Prop :=
  Forall (λ status, status < 400) (statuses evs) ∧
  List.find truthy (data_bodies evs) =
    (if truthy (uploadData s) then Some (uploadData s) else None).

(** The three shapes of a reachable state, [pre] being the chunks the
    stream has delivered so far:
    - between chunks, every invocation of the listener has completed;
    - one invocation is suspended, for the last delivered chunk;
    - an invocation threw: the stream stays paused for good.
    'end' can come in any of them once every chunk is delivered. *)
Inductive Mode (f : FileStream) (uploadUrl : string) (evs : list Event)
    (s : SState) (pre : list chunk) : Prop :=
| Idle :
    st_flowing s = true →
    st_inflight s = ∅ →
    st_unhandled s = [] →
    st_requests s = range_requests f uploadUrl 0 pre →
    prevChunk s = total_length pre - 1 →
    trace_ok evs s →
    Mode f uploadUrl evs s pre
| Busy pre' c ph :
    pre = pre' ++ [c] →
    st_flowing s = false →
    st_inflight s = {[ length pre' := {| l_len := chunk_length c; l_phase := ph |} ]} →
    st_unhandled s = [] →
    st_requests s = range_requests f uploadUrl 0 pre →
    prevChunk s = total_length pre' - 1 →
    st_aborted s = false →
    (ph = AwaitDataBody → truthy (uploadData s) = false) →
    ((∀ status, ph ≠ AwaitErrorBody status) → trace_ok evs s) →
    Mode f uploadUrl evs s pre
| Stuck :
    st_flowing s = false →
    st_inflight s = ∅ →
    st_unhandled s ≠ [] →
    (∃ n, st_requests s = take n (range_requests f uploadUrl 0 pre)) →
    (st_aborted s = false → st_requests s = range_requests f uploadUrl 0 pre) →
    Mode f uploadUrl evs s pre.

Record Inv (f : FileStream) (uploadUrl : string) (delay : Z)
    (evs : list Event) (s : SState) : Prop := {
  inv_mode :
    ∃ pre, rs_chunks (stream f) = pre ++ st_pending s ∧ Mode f uploadUrl evs s pre;
  inv_live :
    st_ended s = false → st_destroyed s = false → st_promise s = Pending;
  inv_ended :
    st_ended s = true →
    st_pending s = [] ∧ st_destroyed s = false ∧
    (st_promise s = Rejected (Error "Failed to upload") ∨
     ∃ v, st_promise s = Resolved v ∧ truthy v = true ∧ uploadData s = v);
  inv_destroyed :
    st_destroyed s = true → ∃ code, st_promise s = Rejected (FsError code);
  inv_timer_on :
    ∀ d, st_timer s = Some d →
      d = setTimeout_delay delay ∧ st_aborted s = false ∧
      st_promise s = Pending ∧ st_now s < d;
  inv_timer_off :
    st_timer s = None → st_aborted s = true ∨ st_promise s ≠ Pending;
  inv_first :
    st_requests s = [] → uploadData s = JNull;
  inv_retained :
    truthy (uploadData s) = true →
    List.find truthy (data_bodies evs) = Some (uploadData s);
  inv_bad_status :
    ∀ k status, EHeaders k status ∈ evs → 400 ≤ status →
      st_flowing s = false ∧
      (S k + length (st_pending s))%nat = length (rs_chunks (stream f));
}.

(** A state in which the listener is about to throw, or the signal is
    raised: the request log is final. *)
Definition doomed (s : SState) : Prop :=
  st_flowing s = false ∧
  ∀ k l, st_inflight s !! k = Some l → ∃ status, l_phase l = AwaitErrorBody status.

(** ** Inputs used in the examples *)

Definition demo_stream : FileStream :=
  {| stream := {| rs_path := PStr "/srv/media/clip.mp4";
                  rs_chunks := [replicate 1000 Byte.x2a; replicate 500 Byte.x2b] |};
     fs_fileName := "clip.mp4";
     contentLength := 1500 |}.

Definition empty_stream : FileStream :=
  {| stream := {| rs_path := PStr "/srv/media/empty.bin"; rs_chunks := [] |};
     fs_fileName := "empty.bin";
     contentLength := 0 |}.

Definition demo_buffer : FileBuffer :=
  {| buffer := [Byte.x01; Byte.x02; Byte.x03];
     fb_fileName := "6f1c2a3e-0d4b-4c55-9a70-2b1e8d3f4a5c" |}.

Definition demo_url : string := "https://upload.example/put?sig=1".

Definition demo_payload : json := JObj [("id", JNum 7); ("token", JStr "abc")].

Definition demo_failure : json := JObj [("code", JStr "too.large")].

Definition demo_path : string := "/srv/media/clip.mp4".

Definition demo_dir : string := "/srv/media".

(** A file system with one regular file of 1500 bytes and its directory. *)
Definition demo_env : Env :=
  {| stat := λ p,
       match p with
       | PStr p =>
           if String.eqb p demo_path
           then inr {| isFile := true; size := 1500 |}
           else if String.eqb p demo_dir
           then inr {| isFile := false; size := 4096 |}
           else inl "ENOENT"
       | PBuf _ => inl "ENOENT"
       end;
     file_chunks := λ p,
       if String.eqb p demo_path
       then [replicate 1000 Byte.x2a; replicate 500 Byte.x2b]
       else [];
     randomUUID := "6f1c2a3e-0d4b-4c55-9a70-2b1e8d3f4a5c";
     getUploadUrl := λ _, inr demo_url |}.

(** The rejections the call left unhandled. *)
Definition session_unhandled (c : Session) : list error :=
  match c with
  | Streaming _ _ _ s => st_unhandled s
  | _ => []
  end.

(** What holds of every state of a buffer upload after the events [evs]. *)
Record BInv (f : FileBuffer) (uploadUrl : string)
    (evs : list Event) (s : BState) : Prop := {
  binv_requests : b_requests s = [buffer_request f uploadUrl];
  binv_running :
    b_phase s ≠ BDone →
    b_promise s = Pending ∧ ∀ k v, EBody k (Some v) ∉ evs;
  binv_result :
    ∀ k v, EBody k (Some v) ∈ evs → b_promise s = Resolved v;
}.

(** A path segment: no separator inside. *)
Definition no_sep (name : string) : Prop :=
  Forall (λ c, is_sep c = false) (String.list_ascii_of_string name).

(** The spec's scenario: two chunks, both answered 200, the payload in
    the first answer.  The second body is never read. *)
Definition two_chunk_events : list Event :=
  [EData; EHeaders 0 200; EBody 0 (Some demo_payload);
   EData; EHeaders 1 200; EEnd].

(** A stream the caller opened on the demo file with [{ start: 1000 }]:
    it delivers the last 500 of the 1500 bytes. *)
Definition tail_stream : ReadStream :=
  {| rs_path := PStr "/srv/media/clip.mp4";
     rs_chunks := [replicate 500 Byte.x2b] |}.

(** Both answers are 200 and carry a falsy body; 'end' comes right
    after the last 'data'. *)
Definition falsy_body_events : list Event :=
  [EData; EHeaders 0 200; EBody 0 (Some JNull);
   EData; EEnd; EHeaders 1 200; EBody 1 (Some (JNum 0))].

(** The first chunk is answered 500 with a JSON error body; a minute passes. *)
Definition rejected_chunk_events : list Event :=
  [EData; EHeaders 0 500; EBody 0 (Some demo_failure); ETick 60000].

(** The spec's scenario as Node schedules it when the second chunk was
    read ahead: 'end' comes right after the last 'data', before the
    server has answered the second chunk. *)
Definition two_chunk_early_end : list Event :=
  [EData; EHeaders 0 200; EBody 0 (Some demo_payload);
   EData; EEnd; EHeaders 1 200].

(** The payload only comes with the second answer, after 'end'. *)
Definition late_payload_events : list Event :=
  [EData; EHeaders 0 200; EBody 0 (Some JNull);
   EData; EEnd; EHeaders 1 200; EBody 1 (Some demo_payload)].

(** The second answer, after 'end', is a 500. *)
Definition late_failure_events : list Event :=
  [EData; EHeaders 0 200; EBody 0 (Some demo_payload);
   EData; EEnd; EHeaders 1 500; EBody 1 (Some demo_failure)].

(** The first chunk is still unanswered when the deadline passes. *)
Definition slow_server_events : list Event :=
  [EData; ETick 20000; ETick 60000].

(** ** Proof automation *)

(** Peel the guards of a successful step: [crack] on the hypothesis,
    [crack_goal] on the state the step built, [bools] on the guards. *)
Ltac crack H :=
  repeat match type of H with
  | (if ?b then _ else _) = Some _ => destruct b eqn:?; try discriminate H
  | match ?x with _ => _ end = Some _ => destruct x eqn:?; try discriminate H
  | Some _ = Some _ => injection H as <-
  end.

Ltac bools :=
  repeat match goal with
  | H : _ && _ = true |- _ => apply andb_prop in H as [? ?]
  | H : negb _ = true |- _ => apply negb_true_iff in H
  | H : negb _ = false |- _ => apply negb_false_iff in H
  | H : (_ <=? _) = true |- _ => apply Z.leb_le in H
  | H : (_ <=? _) = false |- _ => apply Z.leb_gt in H
  end.

Ltac unfold_step :=
  unfold on_data, on_headers, on_end, settle, listener_throws, finish_chunk, abort.

Ltac crack_goal :=
  unfold_step; simpl;
  repeat match goal with
  | |- context [if ?b then _ else _] => destruct b eqn:?; simpl
  | |- context [match st_promise ?s with _ => _ end] => destruct (st_promise s) eqn:?; simpl
  end.


(** ** Further vocabulary *)

(** The bytes a request carries in its body. *)
Definition request_bytes (r : Request) : list Byte.byte :=
  match req_body r with
  | RawBody c => c
  | FormBody fields => List.concat (map ff_blob fields)
  end.

(** The transfer requests among the network calls of a session. *)
Definition fetched (net : list NetCall) : list Request :=
  omap (λ c, match c with Fetch r => Some r | GetUploadUrl _ => None end) net.

(** The upload-URL requests among the network calls of a session. *)
Definition url_requests (net : list NetCall) : list UploadType :=
  omap (λ c, match c with GetUploadUrl t => Some t | Fetch _ => None end) net.

Definition is_tick (e : Event) : bool :=
  match e with
  | ETick _ => true
  | _ => false
  end.

(** How a buffer upload can stand after the events [evs]: the timer is
    armed exactly while the function is running, and a finished call
    carries the trace of what finished it. *)
Record BOutcome (delay : Z) (evs : list Event) (s : BState) : Prop := {
  bo_timer_on :
    ∀ d, b_timer s = Some d →
      d = setTimeout_delay delay ∧ b_phase s ≠ BDone ∧
      b_aborted s = false ∧ b_now s < d;
  bo_timer_off : b_timer s = None → b_phase s = BDone;
  bo_running : b_phase s ≠ BDone → b_promise s = Pending;
  bo_done :
    b_phase s = BDone →
    (∃ k v, b_promise s = Resolved v ∧ EBody k (Some v) ∈ evs ∧ b_aborted s = false) ∨
    (∃ k reason, b_promise s = Rejected (FetchError reason) ∧
                 EFetchFail k reason ∈ evs ∧ b_aborted s = false) ∨
    (b_promise s = Rejected SyntaxError ∧ (∃ k, EBody k None ∈ evs) ∧
     b_aborted s = false) ∨
    (b_promise s = Rejected AbortError ∧ b_aborted s = true);
  bo_aborted : b_aborted s = true → setTimeout_delay delay ≤ b_now s;
}.

(** ** [streamToBlob] (stream helpers) *)

(** A chunk as a stream hands it over: a [Buffer], or a string when the
    stream decodes. *)
Inductive Part :=
| PartBuffer (b : list Byte.byte)
| PartString (s : string).

(** A [Blob]: the parts it was built from, in order, and its type. *)
Record Blob := {
  blob_parts : list Part;
  blob_type : string;
}.

(** How the [Blob] constructor stores a type: emptied if it has a
    character outside U+0020..U+007E, lower-cased otherwise. *)
Definition printable (c : Ascii.ascii) : bool :=
  (32 <=? Ascii.nat_of_ascii c)%nat && (Ascii.nat_of_ascii c <=? 126)%nat.

Definition lower (c : Ascii.ascii) : Ascii.ascii :=
  if (65 <=? Ascii.nat_of_ascii c)%nat && (Ascii.nat_of_ascii c <=? 90)%nat
  then Ascii.ascii_of_nat (Ascii.nat_of_ascii c + 32)
  else c.

Definition normalize_type (t : string) : string :=
  let cs := String.list_ascii_of_string t in
  if forallb printable cs
  then String.string_of_list_ascii (map lower cs)
  else EmptyString.

(** [new Blob(parts, options)]; without options the type is empty. *)
Definition new_Blob (parts : list Part) (type : option string) : Blob :=
  {| blob_parts := parts;
     blob_type := match type with
                  | Some t => normalize_type t
                  | None => EmptyString
                  end |}.

(** The type of the blob [streamToBlob] builds for a [mimeType] option. *)
Definition blob_type_for (mimeType : option string) : string :=
  match mimeType with
  | Some t => normalize_type t
  | None => EmptyString
  end.

Inductive BlobPromise :=
| BlobPending
| BlobResolved (b : Blob)
| BlobRejected (e : error).

Record TState := {
  t_pending : list Part;       (* what the stream still has to deliver *)
  t_ended : bool;
  t_destroyed : bool;
  t_chunks : list Part;        (* const chunks *)
  t_promise : BlobPromise;
}.

(** [resolve] and [reject] act on a pending promise only. *)
Definition t_settle (p : BlobPromise) (s : TState) : TState :=
  match t_promise s with
  | BlobPending =>
      {| t_pending := t_pending s; t_ended := t_ended s;
         t_destroyed := t_destroyed s; t_chunks := t_chunks s;
         t_promise := p |}
  | _ => s
  end.

(** The 'end' listener: [mimeType] is tested for truthiness, so an
    empty string counts as absent. *)
Definition blob_on_end (mimeType : option string) (s : TState) : TState :=
  let blob :=
    match mimeType with
    | Some t =>
        if negb (String.eqb t EmptyString)
        then new_Blob (t_chunks s) (Some t)
        else new_Blob (t_chunks s) None
    | None => new_Blob (t_chunks s) None
    end in
  t_settle (BlobResolved blob) s.

(** One event of [streamToBlob]; the stream is never paused. *)
Definition tstep (mimeType : option string) (s : TState) (e : Event) : option TState :=
  match e with
  | EData =>
      if negb (t_destroyed s) && negb (t_ended s) then
        match t_pending s with
        | c :: rest =>
            Some {| t_pending := rest; t_ended := t_ended s;
                    t_destroyed := t_destroyed s;
                    t_chunks := t_chunks s ++ [c];       (* chunks.push(chunk) *)
                    t_promise := t_promise s |}
        | [] => None
        end
      else None
  | EEnd =>
      if negb (t_destroyed s) && negb (t_ended s) then
        match t_pending s with
        | [] =>
            Some (blob_on_end mimeType
                    {| t_pending := []; t_ended := true;
                       t_destroyed := t_destroyed s; t_chunks := t_chunks s;
                       t_promise := t_promise s |})
        | _ :: _ => None
        end
      else None
  | EStreamErr code =>
      if negb (t_destroyed s) && negb (t_ended s) then
        Some (t_settle (BlobRejected (FsError code))
                {| t_pending := t_pending s; t_ended := t_ended s;
                   t_destroyed := true; t_chunks := t_chunks s;
                   t_promise := t_promise s |})
      else None
  | _ => None
  end.

Fixpoint trun (mimeType : option string) (s : TState) (evs : list Event) : option TState :=
  match evs with
  | [] => Some s
  | e :: rest =>
      match tstep mimeType s e with
      | Some s' => trun mimeType s' rest
      | None => None
      end
  end.

(** [streamToBlob(stream, mimeType)] once its listeners are registered,
    on a stream that will deliver [parts]. *)
Definition streamToBlob (parts : list Part) : TState :=
  {| t_pending := parts; t_ended := false; t_destroyed := false;
     t_chunks := []; t_promise := BlobPending |}.

(** What holds of [streamToBlob] in every state it reaches. *)
Record TInv (parts : list Part) (mimeType : option string) (s : TState) : Prop := {
  tinv_parts : parts = t_chunks s ++ t_pending s;
  tinv_live : t_ended s = false → t_destroyed s = false → t_promise s = BlobPending;
  tinv_ended :
    t_ended s = true →
    t_destroyed s = false ∧ t_chunks s = parts ∧
    t_promise s =
      BlobResolved {| blob_parts := parts;
                      blob_type := blob_type_for mimeType |};
  tinv_destroyed :
    t_destroyed s = true →
    t_ended s = false ∧ ∃ code, t_promise s = BlobRejected (FsError code);
}.

(** ** More inputs for the examples *)

Definition demo_parts : list Part :=
  [PartBuffer [Byte.x01; Byte.x02]; PartString "tail"].

(** A stream opened by the caller on the demo directory. *)
Definition demo_dir_stream : ReadStream :=
  {| rs_path := PStr demo_dir; rs_chunks := [] |}.

(** The platform refuses to hand out an upload URL. *)
Definition refusing_env : Env :=
  {| stat := stat demo_env;
     file_chunks := file_chunks demo_env;
     randomUUID := randomUUID demo_env;
     getUploadUrl := λ _, inl (FetchError "ECONNREFUSED") |}.

(** * Proofs *)

(** ** Lists of chunks and of requests *)

Lemma total_length_app (a b : list chunk) :
  total_length (a ++ b) = total_length a + total_length b.
Proof.
  induction a as [|c a IH]; simpl; [lia|].
  unfold total_length in *. simpl. rewrite IH. lia.
Qed.

Lemma total_length_snoc (a : list chunk) (c : chunk) :
  total_length (a ++ [c]) = total_length a + chunk_length c.
Proof. rewrite total_length_app. unfold total_length. simpl. lia. Qed.

Lemma range_requests_app f u (a b : list chunk) : ∀ offset,
  range_requests f u offset (a ++ b) =
  range_requests f u offset a ++ range_requests f u (offset + total_length a) b.
Proof.
  induction a as [|c a IH]; intros offset; simpl.
  - f_equal. unfold total_length. simpl. lia.
  - rewrite IH. do 3 f_equal. unfold total_length. simpl. lia.
Qed.

Lemma length_range_requests f u (cs : list chunk) : ∀ offset,
  length (range_requests f u offset cs) = length cs.
Proof. induction cs as [|c cs IH]; intros offset; simpl; [done|]. by rewrite IH. Qed.

Lemma range_requests_snoc f u (a : list chunk) (c : chunk) :
  range_requests f u 0 (a ++ [c]) =
  range_requests f u 0 a ++
  [chunk_request f u c (total_length a) (total_length a + chunk_length c - 1)].
Proof. rewrite range_requests_app. simpl. by rewrite Z.add_0_l. Qed.

Lemma range_requests_prefix f u (a b : list chunk) :
  range_requests f u 0 a = take (length a) (range_requests f u 0 (a ++ b)).
Proof.
  rewrite range_requests_app.
  rewrite take_app_length'; [done|]. by rewrite length_range_requests.
Qed.

(** The requests listed by [range_requests] are those of the spec's
    formula, index by index. *)
Lemma range_requests_lookup f u (i : nat) :
  range_requests f u 0 (rs_chunks (stream f)) !! i = spec_request f u i.
Proof.
  unfold spec_request.
  destruct (rs_chunks (stream f) !! i) as [c|] eqn:Hc.
  - pose proof (lookup_lt_Some _ _ _ Hc) as Hlt.
    apply take_drop_middle in Hc.
    rewrite <- Hc at 1.
    rewrite range_requests_app. simpl.
    assert (Hlen : length (take i (rs_chunks (stream f))) = i).
    { rewrite length_take. apply Nat.min_l. apply Nat.lt_le_incl, Hlt. }
    rewrite lookup_app_r; rewrite length_range_requests, Hlen; [|done].
    rewrite Nat.sub_diag. simpl. by rewrite Z.add_0_l.
  - apply lookup_ge_None. rewrite length_range_requests.
    by apply lookup_ge_None.
Qed.

(** ** Runs *)

Lemma srun_app f u (evs1 evs2 : list Event) : ∀ s,
  srun f u s (evs1 ++ evs2) =
  match srun f u s evs1 with
  | Some s' => srun f u s' evs2
  | None => None
  end.
Proof.
  induction evs1 as [|e evs1 IH]; intros s; simpl; [done|].
  destruct (sstep f u s e); [apply IH|done].
Qed.

Lemma srun_snoc f u (evs : list Event) (e : Event) s s' :
  srun f u s (evs ++ [e]) = Some s' ↔
  ∃ s1, srun f u s evs = Some s1 ∧ sstep f u s1 e = Some s'.
Proof.
  rewrite srun_app. split.
  - destruct (srun f u s evs) as [s1|]; [|done]. simpl.
    destruct (sstep f u s1 e) eqn:E; [|done]. intros [= <-]. eauto.
  - intros (s1 & -> & H). simpl. by rewrite H.
Qed.

Lemma find_snoc {A} (p : A → bool) (l : list A) (x : A) :
  List.find p (l ++ [x]) =
  match List.find p l with
  | Some y => Some y
  | None => if p x then Some x else None
  end.
Proof.
  induction l as [|a l IH]; simpl; [done|].
  destruct (p a); [done|apply IH].
Qed.

Lemma statuses_snoc (evs : list Event) (e : Event) :
  statuses (evs ++ [e]) = statuses evs ++ from_option (λ x, [x]) [] (delivered_status e).
Proof.
  unfold statuses. rewrite omap_app. simpl.
  by destruct (delivered_status e).
Qed.

Lemma data_bodies_snoc (evs : list Event) (e : Event) :
  data_bodies (evs ++ [e]) = data_bodies evs ++ from_option (λ x, [x]) [] (parsed_body e).
Proof.
  unfold data_bodies. rewrite omap_app. simpl.
  by destruct (parsed_body e).
Qed.

(** ** The invariant *)

Lemma trace_ok_silent (evs : list Event) (e : Event) (s s' : SState) :
  delivered_status e = None → parsed_body e = None →
  uploadData s' = uploadData s →
  trace_ok evs s → trace_ok (evs ++ [e]) s'.
Proof.
  intros Hs Hb Hu [H1 H2]. unfold trace_ok.
  rewrite statuses_snoc, data_bodies_snoc, Hs, Hb, Hu. simpl.
  by rewrite !app_nil_r.
Qed.

Lemma trace_ok_status (evs : list Event) (k : nat) (status : Z) (s s' : SState) :
  status < 400 →
  uploadData s' = uploadData s →
  trace_ok evs s → trace_ok (evs ++ [EHeaders k status]) s'.
Proof.
  intros Hlt Hu [H1 H2]. unfold trace_ok.
  rewrite statuses_snoc, data_bodies_snoc, Hu. simpl.
  rewrite app_nil_r. split; [|done].
  apply Forall_app. split; [done|]. by constructor.
Qed.

Lemma trace_ok_body (evs : list Event) (k : nat) (v : json) (s s' : SState) :
  truthy (uploadData s) = false →
  uploadData s' = v →
  trace_ok evs s → trace_ok (evs ++ [EBody k (Some v)]) s'.
Proof.
  intros Hf Hu [H1 H2]. unfold trace_ok.
  rewrite statuses_snoc, data_bodies_snoc, Hu. simpl.
  rewrite app_nil_r. split; [done|].
  rewrite find_snoc, H2, Hf. done.
Qed.

(** Events that touch neither the listener's variables nor the stream's
    flow leave the shape of the state as it is. *)
Lemma mode_frame f u evs e s s' pre :
  delivered_status e = None → parsed_body e = None →
  st_flowing s' = st_flowing s →
  st_inflight s' = st_inflight s →
  st_unhandled s' = st_unhandled s →
  st_requests s' = st_requests s →
  prevChunk s' = prevChunk s →
  uploadData s' = uploadData s →
  (st_aborted s = false → st_inflight s ≠ ∅ → st_aborted s' = false) →
  (st_aborted s' = false → st_aborted s = false) →
  Mode f u evs s pre → Mode f u (evs ++ [e]) s' pre.
Proof.
  intros Hs Hb Hfl Hin Hun Hrq Hpc Hud Hab Hba Hm.
  destruct Hm as [H1 H2 H3 H4 H5 H6|p c ph H0 H1 H2 H3 H4 H5 H6 H7 H8|H1 H2 H3 H4 H5].
  - apply Idle; try congruence. by eapply trace_ok_silent.
  - apply (Busy _ _ _ _ _ p c ph); try congruence.
    + apply Hab; [done|]. rewrite H2. apply insert_non_empty.
    + intros Hph. rewrite Hud. auto.
    + intros Hph. eapply trace_ok_silent; eauto.
  - apply Stuck; try congruence.
    + destruct H4 as [n Hn]. exists n. congruence.
    + intros Ha. rewrite Hrq. auto.
Qed.

(** A suspended invocation is the only one, and it belongs to the last
    delivered chunk. *)
Lemma mode_inflight f u evs s pre k l :
  Mode f u evs s pre →
  st_inflight s !! k = Some l →
  ∃ pre' c,
    pre = pre' ++ [c] ∧ k = length pre' ∧ l_len l = chunk_length c ∧
    st_flowing s = false ∧ st_inflight s = {[ k := l ]} ∧
    st_unhandled s = [] ∧
    st_requests s = range_requests f u 0 pre ∧
    prevChunk s = total_length pre' - 1 ∧
    st_aborted s = false ∧
    (l_phase l = AwaitDataBody → truthy (uploadData s) = false) ∧
    ((∀ status, l_phase l ≠ AwaitErrorBody status) → trace_ok evs s).
Proof.
  intros Hm Hk.
  destruct Hm as [H1 H2|p c ph H0 H1 H2 H3 H4 H5 H6 H7 H8|H1 H2].
  - rewrite H2 in Hk. by rewrite lookup_empty in Hk.
  - rewrite H2 in Hk. apply lookup_singleton_Some in Hk as [<- <-].
    exists p, c. simpl. split_and!; auto.
  - rewrite H2 in Hk. by rewrite lookup_empty in Hk.
Qed.

Lemma take_all {A} (l : list A) : l = take (length l) l.
Proof. by rewrite take_ge. Qed.

Lemma mode_step f u evs s e s' pre :
  rs_chunks (stream f) = pre ++ st_pending s →
  Mode f u evs s pre →
  sstep f u s e = Some s' →
  ∃ pre', rs_chunks (stream f) = pre' ++ st_pending s' ∧
          Mode f u (evs ++ [e]) s' pre'.
Proof.
  intros Hcs Hm Hstep.
  destruct e as [| |code|k status|k reason|k parsed|ms]; simpl in Hstep.
  - (* 'data' *)
    destruct (st_flowing s) eqn:Hfl; [|done].
    destruct (st_destroyed s); [done|]. simpl in Hstep.
    destruct (st_pending s) as [|c rest] eqn:Hpend; [done|]. injection Hstep as <-.
    exists (pre ++ [c]).
    destruct Hm as [_ Hi Hu Hr Hp Ht|p c' ph _ H1|H1]; try congruence.
    unfold on_data. simpl. destruct (st_aborted s) eqn:Hab; simpl.
    + split; [by rewrite <- app_assoc|].
      apply Stuck; simpl; try done.
      * rewrite Hu. done.
      * exists (length pre). rewrite Hr. apply range_requests_prefix.
      * congruence.
    + split; [by rewrite <- app_assoc|].
      eapply (Busy _ _ _ _ _ pre c AwaitFetch); simpl; try done.
      * rewrite Hr, Hi, length_range_requests. by rewrite insert_empty.
      * rewrite Hr, range_requests_snoc, Hp. do 3 f_equal; lia.
      * intros _. by eapply trace_ok_silent.
  - (* 'end' *)
    destruct (st_destroyed s); [done|].
    destruct (st_ended s); [done|]. simpl in Hstep.
    destruct (st_pending s) eqn:Hpend; [|done]. injection Hstep as <-.
    exists pre. unfold on_end, settle. simpl.
    split.
    + destruct (truthy (uploadData s)), (st_promise s); simpl; by rewrite Hpend.
    + eapply mode_frame; [done|done|..|exact Hm];
        destruct (truthy (uploadData s)), (st_promise s); done.
  - (* 'error' *)
    destruct (st_destroyed s); [done|].
    destruct (st_ended s); [done|]. simpl in Hstep. injection Hstep as <-.
    exists pre. unfold settle. simpl. split.
    + by destruct (st_promise s).
    + eapply mode_frame; [done|done|..|exact Hm]; destruct (st_promise s); done.
  - (* fetch resolves *)
    destruct (st_inflight s !! k) as [l|] eqn:Hk; [|done].
    destruct (l_phase l) eqn:Hph; try done. injection Hstep as <-.
    destruct (mode_inflight _ _ _ _ _ _ _ Hm Hk)
      as (p & c & -> & -> & Hlen & Hfl & Hin & Hun & Hrq & Hpc & Hab & Hfalsy & Htr).
    exists (p ++ [c]). unfold on_headers.
    destruct (400 <=? status) eqn:Hst; [|destruct (truthy (uploadData s)) eqn:Hud];
      simpl; (split; [done|]).
    + apply (Busy _ _ _ _ _ p c (AwaitErrorBody status)); simpl; try done.
      * by rewrite Hin, insert_singleton_eq, Hlen.
      * intros H. by destruct (H status).
    + apply Idle; simpl; try done.
      * by rewrite Hin, delete_singleton_eq.
      * rewrite Hpc, Hlen, total_length_snoc. lia.
      * eapply trace_ok_status; [lia|done|]. apply Htr. intros ?. congruence.
    + apply (Busy _ _ _ _ _ p c AwaitDataBody); simpl; try done.
      * by rewrite Hin, insert_singleton_eq, Hlen.
      * intros _. eapply trace_ok_status; [lia|done|]. apply Htr. intros ?. congruence.
  - (* fetch rejects *)
    destruct (st_inflight s !! k) as [l|] eqn:Hk; [|done].
    destruct (l_phase l) eqn:Hph; try done. injection Hstep as <-.
    destruct (mode_inflight _ _ _ _ _ _ _ Hm Hk)
      as (p & c & -> & -> & Hlen & Hfl & Hin & Hun & Hrq & Hpc & Hab & Hfalsy & Htr).
    exists (p ++ [c]). split; [done|].
    apply Stuck; simpl; try done.
    + by rewrite Hin, delete_singleton_eq.
    + rewrite Hun. done.
    + exists (length (range_requests f u 0 (p ++ [c]))). rewrite Hrq. apply take_all.
  - (* json() settles *)
    destruct (st_inflight s !! k) as [l|] eqn:Hk; [|done].
    destruct (mode_inflight _ _ _ _ _ _ _ Hm Hk)
      as (p & c & -> & -> & Hlen & Hfl & Hin & Hun & Hrq & Hpc & Hab & Hfalsy & Htr).
    exists (p ++ [c]).
    assert (Hthrow : ∀ err,
      Mode f u (evs ++ [EBody (length p) parsed]) (listener_throws (length p) err s) (p ++ [c])).
    { intros err. apply Stuck; simpl; try done.
      - by rewrite Hin, delete_singleton_eq.
      - rewrite Hun. done.
      - exists (length (range_requests f u 0 (p ++ [c]))). rewrite Hrq. apply take_all. }
    destruct (l_phase l) eqn:Hph, parsed as [v|]; try done;
      injection Hstep as <-; (split; [done|]); try apply Hthrow.
    apply Idle; simpl; try done.
    + by rewrite Hin, delete_singleton_eq.
    + rewrite Hpc, Hlen, total_length_snoc. lia.
    + eapply trace_ok_body; [by apply Hfalsy|done|]. apply Htr. intros ?. congruence.
  - (* time passes *)
    destruct (0 <=? ms); [|done].
    exists pre. simpl in Hstep.
    destruct (st_timer s) as [deadline|] eqn:Htm;
      [destruct (deadline <=? st_now s + ms) eqn:Hdl|]; injection Hstep as <-;
      simpl; (split; [done|]);
      try (eapply mode_frame; [done|done|..|exact Hm]; done).
    destruct Hm as [H1 H2 H3 H4 H5 H6|p c ph H0 H1 H2 H3 H4 H5 H6 H7 H8|H1 H2 H3 H4].
    + apply Idle; simpl; try done.
      * by rewrite H3, H2, map_size_empty.
      * by eapply trace_ok_silent.
    + apply Stuck; simpl; try done.
      * rewrite H3, H2, map_size_singleton. done.
      * exists (length (range_requests f u 0 pre)). rewrite H4. apply take_all.
    + apply Stuck; simpl; try done.
      by rewrite H2, map_size_empty, app_nil_r.
Qed.

Lemma on_end_promise (s : SState) :
  st_promise s = Pending →
  st_promise (on_end s) = end_result (uploadData s).
Proof.
  intros H. unfold on_end, end_result, settle. rewrite H.
  by destruct (truthy (uploadData s)).
Qed.

Lemma setTimeout_delay_pos (after : Z) : 1 ≤ setTimeout_delay after.
Proof.
  unfold setTimeout_delay.
  destruct (1 <=? after) eqn:E; simpl; [|lia].
  destruct (after <=? TIMEOUT_MAX); [|lia]. by apply Z.leb_le.
Qed.

Lemma setTimeout_delay_le (after : Z) : 1 ≤ after → setTimeout_delay after ≤ after.
Proof.
  intros H. unfold setTimeout_delay.
  destruct (1 <=? after); simpl; [|lia].
  destruct (after <=? TIMEOUT_MAX); lia.
Qed.


Lemma in_snoc_headers (evs : list Event) (e : Event) k status :
  EHeaders k status ∈ evs ++ [e] → EHeaders k status ∈ evs ∨ e = EHeaders k status.
Proof.
  intros [H|H%list_elem_of_singleton]%elem_of_app; [by left|by right].
Qed.

Lemma headers_in_statuses (evs : list Event) k status :
  EHeaders k status ∈ evs → status ∈ statuses evs.
Proof.
  intros H. unfold statuses. apply list_elem_of_omap.
  exists (EHeaders k status). by split.
Qed.

Lemma inv_init f u delay : Inv f u delay [] (uploadFromStream f delay).
Proof.
  split; simpl; try done.
  - exists []. split; [done|]. by apply Idle.
  - intros d [= <-]. split_and!; try done. pose proof (setTimeout_delay_pos delay). lia.
  - intros k status H. by apply elem_of_nil in H.
Qed.

Lemma inv_step f u delay evs s e s' :
  Inv f u delay evs s → sstep f u s e = Some s' → Inv f u delay (evs ++ [e]) s'.
Proof.
  intros [(pre & Hcs & Hm) Hlive Hended Hdestroyed Hon Hoff Hfirst Hret Hbad] Hstep.
  pose proof (mode_step _ _ _ _ _ _ _ Hcs Hm Hstep) as Hm'.
  split; [exact Hm'|..]; clear Hm'.
  - (* live *)
    destruct e; simpl in Hstep; crack Hstep; crack_goal; try done; try (intros; auto; fail).
  - (* ended *)
    destruct e; simpl in Hstep; crack Hstep; bools;
      try match goal with
      | H : st_inflight s !! _ = Some _ |- _ =>
          destruct (mode_inflight _ _ _ _ _ _ _ Hm H)
            as (? & ? & _ & _ & _ & _ & _ & _ & _ & _ & _ & Hfalsy & _)
      end;
      crack_goal; bools; intros Hen; try congruence;
      try (destruct (Hended Hen) as (? & ? & ?); split_and!; congruence).
    all: try (specialize (Hlive ltac:(done) ltac:(done)); congruence).
    + split_and!; try done. by left.
    + split_and!; try done. right. by exists (uploadData s).
    + destruct (Hended Hen) as (? & ? & [?|(v & ? & Hv & Hud)]).
      * split_and!; try done. by left.
      * rewrite <- Hud, Hfalsy in Hv; done.
  - (* destroyed *)
    destruct e; simpl in Hstep; crack Hstep; bools;
      crack_goal; bools; intros Hde; try congruence; eauto.
    all: specialize (Hlive ltac:(done) ltac:(done)); congruence.
  - (* timer armed *)
    destruct e; simpl in Hstep; crack Hstep; bools;
      crack_goal; bools; intros d Hd; simpl in *; try congruence; eauto.
    all: destruct (Hon d ltac:(congruence)) as (? & ? & ? & ?);
      split_and!; simplify_eq; try congruence; try done; try lia.
  - (* timer cleared *)
    destruct e; simpl in Hstep; crack Hstep; bools;
      crack_goal; bools; intros Hd; simpl in *; try congruence; eauto.
    all: destruct (Hoff ltac:(congruence)) as [?|?]; [left|right]; congruence.
  - (* first request *)
    destruct e; simpl in Hstep; crack Hstep; bools;
      try match goal with
      | H : st_inflight s !! _ = Some _ |- _ =>
          destruct (mode_inflight _ _ _ _ _ _ _ Hm H)
            as (? & ? & -> & ? & ? & ? & ? & ? & Hrq & _)
      end;
      crack_goal; bools; intros Hd; simpl in *; try congruence; eauto.
    + by destruct (st_requests s).
    + rewrite range_requests_snoc, Hd in Hrq. by destruct (range_requests _ _ _ _).
  - (* retained payload *)
    rewrite data_bodies_snoc.
    destruct e; simpl in Hstep; crack Hstep; bools;
      try match goal with
      | H : st_inflight s !! _ = Some _ |- _ =>
          destruct (mode_inflight _ _ _ _ _ _ _ Hm H)
            as (? & ? & _ & _ & _ & _ & _ & _ & _ & _ & _ & Hfalsy & Htr)
      end;
      crack_goal; bools; intros Hud; simpl; rewrite ?app_nil_r; auto.
    + by rewrite find_snoc, (Hret Hud).
    + destruct Htr as [_ Hfind]; [intros ?; congruence|].
      rewrite find_snoc, Hfind, Hfalsy, Hud; done.
  - (* a status of 400 or more *)
    intros k0 status0 [Hin|He]%in_snoc_headers Hst.
    + destruct (Hbad _ _ Hin Hst) as [Hfl Hlen].
      pose proof (headers_in_statuses _ _ _ Hin) as Hin'.
      assert (Hno : ¬ trace_ok evs s).
      { intros [Hall _]. pose proof (proj1 (Forall_forall _ _) Hall _ Hin') as Hlt.
        simpl in Hlt. lia. }
      destruct e; simpl in Hstep; rewrite ?Hfl in Hstep; crack Hstep; bools;
        try match goal with
        | H : st_inflight s !! _ = Some _ |- _ =>
            destruct (mode_inflight _ _ _ _ _ _ _ Hm H)
              as (? & ? & _ & _ & _ & _ & _ & _ & _ & _ & _ & _ & Htr)
        end;
        try (destruct Hno; apply Htr; intros ?; congruence);
        crack_goal; try done;
        (split; [done|]);
        repeat match goal with H : st_pending s = _ |- _ => rewrite H end;
        simpl in *; lia.
    + subst e. simpl in Hstep. crack Hstep.
      destruct (mode_inflight _ _ _ _ _ _ _ Hm ltac:(eassumption))
        as (p & c & -> & -> & _ & Hfl & _).
      apply Z.leb_le in Hst. unfold on_headers. rewrite Hst. simpl.
      split; [done|]. rewrite Hcs, !length_app. simpl. lia.
Qed.

(** Every state a run reaches satisfies the invariant. *)
Lemma inv_reachable f u delay (evs : list Event) : ∀ s,
  srun f u (uploadFromStream f delay) evs = Some s → Inv f u delay evs s.
Proof.
  induction evs as [|e evs IH] using rev_ind; intros s Hrun.
  - injection Hrun as <-. apply inv_init.
  - apply srun_snoc in Hrun as (s1 & Hrun & Hstep).
    eapply inv_step; eauto.
Qed.

(** ** Consequences of the invariant *)

Section Reachable.
Variables (f : FileStream) (u : string) (delay : Z).
Variables (evs : list Event) (s : SState).
Hypothesis Hrun : srun f u (uploadFromStream f delay) evs = Some s.

(** The request log is an initial segment of the spec's requests. *)
Lemma requests_prefix :
  ∃ n, st_requests s = take n (range_requests f u 0 (rs_chunks (stream f))).
Proof.
  destruct (inv_reachable _ _ _ _ _ Hrun) as [(pre & Hcs & Hm) _ _ _ _ _ _ _ _].
  rewrite Hcs.
  destruct Hm as [_ _ _ Hr _ _|p c ph _ _ _ _ Hr _ _ _ _|_ _ _ [n Hr] _].
  - exists (length pre). rewrite Hr. apply range_requests_prefix.
  - exists (length pre). rewrite Hr. apply range_requests_prefix.
  - exists (n `min` length pre)%nat.
    rewrite Hr, (range_requests_prefix _ _ pre (st_pending s)).
    by rewrite take_take.
Qed.

(** Until the signal is raised, every delivered chunk has its request. *)
Lemma requests_of_delivered :
  st_aborted s = false →
  ∃ pre, rs_chunks (stream f) = pre ++ st_pending s ∧
         st_requests s = range_requests f u 0 pre.
Proof.
  intros Hab.
  destruct (inv_reachable _ _ _ _ _ Hrun) as [(pre & Hcs & Hm) _ _ _ _ _ _ _ _].
  exists pre. split; [done|].
  destruct Hm as [_ _ _ Hr _ _|p c ph _ _ _ _ Hr _ _ _ _|_ _ _ _ Hr]; auto.
Qed.

Lemma inflight_at_most_one : (base.size (st_inflight s) ≤ 1)%nat.
Proof.
  destruct (inv_reachable _ _ _ _ _ Hrun) as [(pre & Hcs & Hm) _ _ _ _ _ _ _ _].
  destruct Hm as [_ Hi|p c ph _ _ Hi|_ Hi]; rewrite Hi.
  - rewrite map_size_empty. lia.
  - by rewrite map_size_singleton.
  - rewrite map_size_empty. lia.
Qed.

(** A request in flight is that of the last chunk delivered. *)
Lemma inflight_is_last k l :
  st_inflight s !! k = Some l →
  (S k + length (st_pending s))%nat = length (rs_chunks (stream f)).
Proof.
  intros Hk.
  destruct (inv_reachable _ _ _ _ _ Hrun) as [(pre & Hcs & Hm) _ _ _ _ _ _ _ _].
  destruct (mode_inflight _ _ _ _ _ _ _ Hm Hk) as (p & c & -> & -> & _).
  rewrite Hcs, !length_app. simpl. lia.
Qed.

Lemma flowing_idle :
  st_flowing s = true →
  st_inflight s = ∅ ∧ st_unhandled s = [] ∧ trace_ok evs s ∧
  ∃ pre, rs_chunks (stream f) = pre ++ st_pending s ∧
         st_requests s = range_requests f u 0 pre.
Proof.
  intros Hfl.
  destruct (inv_reachable _ _ _ _ _ Hrun) as [(pre & Hcs & Hm) _ _ _ _ _ _ _ _].
  destruct Hm as [_ Hi Hu Hr _ Ht|p c ph _ Hfl'|Hfl']; try congruence.
  split_and!; eauto.
Qed.

(** The only values the caller can ever observe. *)
Lemma stream_promise_shapes :
  st_promise s = Pending ∨
  (∃ v, st_promise s = Resolved v ∧ truthy v = true ∧ st_ended s = true) ∨
  st_promise s = Rejected (Error "Failed to upload") ∨
  (∃ code, st_promise s = Rejected (FsError code)).
Proof.
  pose proof (inv_reachable _ _ _ _ _ Hrun) as HI.
  destruct (st_ended s) eqn:Hen.
  - destruct (inv_ended _ _ _ _ _ HI Hen) as (_ & _ & [Hpr|(v & Hpr & Hv & _)]).
    + right. right. by left.
    + right. left. by exists v.
  - destruct (st_destroyed s) eqn:Hde.
    + right. right. right. by apply (inv_destroyed _ _ _ _ _ HI).
    + left. by apply (inv_live _ _ _ _ _ HI).
Qed.

(** A resolved call: the stream has ended, every chunk was delivered,
    and the value is the payload [uploadData] retains. *)
Lemma resolved_retained v :
  st_promise s = Resolved v →
  st_ended s = true ∧ st_pending s = [] ∧ truthy v = true ∧ uploadData s = v.
Proof.
  intros Hpr. pose proof (inv_reachable _ _ _ _ _ Hrun) as HI.
  destruct (st_ended s) eqn:Hen.
  - destruct (inv_ended _ _ _ _ _ HI Hen) as (Hpend & _ & [H|(v' & H & Hv & Hud)]);
      [congruence|]. rewrite Hpr in H. by injection H as <-.
  - destruct (st_destroyed s) eqn:Hde.
    + destruct (inv_destroyed _ _ _ _ _ HI Hde) as [code H]. congruence.
    + pose proof (inv_live _ _ _ _ _ HI Hen Hde). congruence.
Qed.

(** While the timer is armed the clock has not reached its delay, so a
    live call whose deadline has passed has had its signal raised. *)
Lemma timer_raises_abort :
  setTimeout_delay delay ≤ st_now s → st_promise s = Pending → st_aborted s = true.
Proof.
  intros Hnow Hpr.
  pose proof (inv_reachable _ _ _ _ _ Hrun) as HI.
  destruct (st_timer s) as [d|] eqn:Htm.
  - destruct (inv_timer_on _ _ _ _ _ HI d Htm) as (-> & _ & _ & Hlt). lia.
  - by destruct (inv_timer_off _ _ _ _ _ HI Htm).
Qed.

Lemma deadline_raises_abort :
  0 < delay → delay ≤ st_now s → st_promise s = Pending → st_aborted s = true.
Proof.
  intros Hpos Hnow Hpr. apply timer_raises_abort; [|done].
  pose proof (setTimeout_delay_le delay). lia.
Qed.
End Reachable.

(** ** After a failure the request log is final *)

Lemma doomed_step f u s e s' :
  doomed s → sstep f u s e = Some s' →
  doomed s' ∧ st_requests s' = st_requests s ∧
  st_pending s' = st_pending s ∧ uploadData s' = uploadData s.
Proof.
  intros [Hfl Hph] Hstep.
  destruct e; simpl in Hstep; rewrite ?Hfl in Hstep; crack Hstep; bools; try done;
    try match goal with
    | H : st_inflight s !! _ = Some _ |- _ =>
        destruct (Hph _ _ H) as [status' Hst]; try congruence
    end;
    crack_goal; (split; [split|]); simpl; try done;
    intros k' l' Hk';
    try (apply lookup_delete_Some in Hk' as [_ Hk']);
    try (by rewrite lookup_empty in Hk');
    by apply Hph in Hk'.
Qed.

Lemma doomed_run f u (evs : list Event) : ∀ s s',
  doomed s → srun f u s evs = Some s' →
  doomed s' ∧ st_requests s' = st_requests s ∧
  st_pending s' = st_pending s ∧ uploadData s' = uploadData s.
Proof.
  induction evs as [|e evs IH]; intros s s' Hd Hrun; simpl in Hrun.
  - by injection Hrun as <-.
  - destruct (sstep f u s e) as [s1|] eqn:Hstep; [|done].
    destruct (doomed_step _ _ _ _ _ Hd Hstep) as (Hd1 & Hr1 & Hp1 & Hu1).
    destruct (IH _ _ Hd1 Hrun) as (Hd' & Hr' & Hp' & Hu').
    split_and!; [done|congruence..].
Qed.

Lemma aborted_step f u s e s' :
  st_aborted s = true → sstep f u s e = Some s' →
  st_aborted s' = true ∧ st_requests s' = st_requests s.
Proof.
  intros Hab Hstep.
  destruct e; simpl in Hstep; crack Hstep; unfold_step; simpl; rewrite ?Hab;
    repeat case_match; done.
Qed.

Lemma aborted_run f u (evs : list Event) : ∀ s s',
  st_aborted s = true → srun f u s evs = Some s' →
  st_aborted s' = true ∧ st_requests s' = st_requests s.
Proof.
  induction evs as [|e evs IH]; intros s s' Hab Hrun; simpl in Hrun.
  - by injection Hrun as <-.
  - destruct (sstep f u s e) as [s1|] eqn:Hstep; [|done].
    destruct (aborted_step _ _ _ _ _ Hab Hstep) as (Hab1 & Hr1).
    destruct (IH _ _ Hab1 Hrun) as (Hab' & Hr').
    split; congruence.
Qed.

(** Once its promise is settled, a state only lets time and late
    answers pass: result, signal and timer stay. *)
Lemma settled_step f u s e s' :
  st_promise s ≠ Pending → st_timer s = None →
  sstep f u s e = Some s' →
  st_promise s' = st_promise s ∧ st_aborted s' = st_aborted s ∧ st_timer s' = None.
Proof.
  intros Hpr Htm Hstep.
  destruct e; simpl in Hstep; rewrite ?Htm in Hstep; crack Hstep;
    crack_goal; try done.
Qed.

Lemma settled_run f u (evs : list Event) : ∀ s s',
  st_promise s ≠ Pending → st_timer s = None →
  srun f u s evs = Some s' →
  st_promise s' = st_promise s ∧ st_aborted s' = st_aborted s ∧ st_timer s' = None.
Proof.
  induction evs as [|e evs IH]; intros s s' Hpr Htm Hrun; simpl in Hrun.
  - by injection Hrun as <-.
  - destruct (sstep f u s e) as [s1|] eqn:Hstep; [|done].
    destruct (settled_step _ _ _ _ _ Hpr Htm Hstep) as (Hp1 & Ha1 & Ht1).
    destruct (IH s1 s') as (Hp' & Ha' & Ht'); [congruence|done|done|].
    split_and!; congruence.
Qed.

(** ** Buffer transmitter *)

Lemma brun_snoc (evs : list Event) (e : Event) : ∀ s s',
  brun s (evs ++ [e]) = Some s' ↔
  ∃ s1, brun s evs = Some s1 ∧ bstep s1 e = Some s'.
Proof.
  induction evs as [|e0 evs IH]; intros s s'; simpl.
  - destruct (bstep s e) eqn:E; split.
    + intros [= <-]. eauto.
    + intros (s1 & [= <-] & H). congruence.
    + done.
    + intros (s1 & [= <-] & H). congruence.
  - destruct (bstep s e0) as [s0|]; [apply IH|].
    split; [done|]. by intros (s1 & H & _).
Qed.

Lemma in_snoc_body (evs : list Event) (e : Event) k v :
  EBody k (Some v) ∈ evs ++ [e] → EBody k (Some v) ∈ evs ∨ e = EBody k (Some v).
Proof.
  intros [H|H%list_elem_of_singleton]%elem_of_app; [by left|by right].
Qed.

Lemma binv_step f u evs s e s' :
  BInv f u evs s → bstep s e = Some s' → BInv f u (evs ++ [e]) s'.
Proof.
  intros [Hreq Hrun Hres] Hstep.
  destruct e as [| | |k status|k reason|k parsed|ms]; simpl in Hstep; try done;
    crack Hstep; unfold b_abort; simpl;
    try (destruct (b_phase s) eqn:Hph; simpl);
    (split; simpl; [done|..]);
    try (assert (Hold : b_promise s = Pending ∧ ∀ k v, EBody k (Some v) ∉ evs)
           by (by apply Hrun); destruct Hold as [Hp Hno]).
  all: try (intros _; split; [done|]; intros k' v' [Hin|Hin]%in_snoc_body;
            [by apply Hno in Hin|done]).
  all: try (intros k' v' [Hin|Hin]%in_snoc_body;
            [by apply Hno in Hin|by simplify_eq]).
  all: try done.
  all: intros k' v' [Hin|Hin]%in_snoc_body; [|done]; by apply Hres in Hin.
Qed.

Lemma binv_reachable f u delay (evs : list Event) : ∀ s,
  brun (uploadFromBuffer f u delay) evs = Some s → BInv f u evs s.
Proof.
  induction evs as [|e evs IH] using rev_ind; intros s Hrun.
  - injection Hrun as <-. split; simpl; try done.
    + intros _. split; [done|]. intros k v Hin. by apply elem_of_nil in Hin.
    + intros k v Hin. by apply elem_of_nil in Hin.
  - apply brun_snoc in Hrun as (s1 & Hrun & Hstep).
    eapply binv_step; eauto.
Qed.

(** ** Paths *)

Lemma list_ascii_of_string_app (a b : string) :
  String.list_ascii_of_string (a +:+ b) =
  String.list_ascii_of_string a ++ String.list_ascii_of_string b.
Proof. induction a as [|c a IH]; simpl; [done|]. by rewrite IH. Qed.

Lemma drop_seps_segment (l rest : list Ascii.ascii) :
  l ≠ [] → Forall (λ c, is_sep c = false) l → drop_seps (l ++ rest) = l ++ rest.
Proof.
  intros Hne Hl. destruct l as [|c l]; [done|]. simpl.
  apply Forall_cons in Hl as [-> _]. done.
Qed.

Lemma take_segment_stop (l rest : list Ascii.ascii) :
  Forall (λ c, is_sep c = false) l →
  take_segment (l ++ "/"%char :: rest) = l.
Proof.
  induction 1 as [|c l Hc _ IH]; simpl; [done|]. by rewrite Hc, IH.
Qed.

Lemma take_segment_all (l : list Ascii.ascii) :
  Forall (λ c, is_sep c = false) l → take_segment l = l.
Proof.
  induction 1 as [|c l Hc _ IH]; simpl; [done|]. by rewrite Hc, IH.
Qed.

(** [basename] is the final segment of a path. *)
Lemma basename_final_segment (dir name : string) :
  name ≠ EmptyString → no_sep name →
  basename (dir +:+ "/" +:+ name) = name.
Proof.
  intros Hne Hns. unfold basename, no_sep in *.
  rewrite !list_ascii_of_string_app. simpl.
  rewrite !rev_app_distr. simpl. rewrite <- app_assoc. simpl.
  assert (Hrev : Forall (λ c, is_sep c = false) (rev (String.list_ascii_of_string name))).
  { by apply List.Forall_rev. }
  rewrite drop_seps_segment;
    [|destruct name; [done|simpl; by intros [_ [=]]%app_eq_nil]|done].
  rewrite take_segment_stop; [|done].
  by rewrite rev_involutive, String.string_of_list_ascii_of_string.
Qed.

Lemma basename_bare (name : string) :
  no_sep name → basename name = name.
Proof.
  intros Hns. unfold basename, no_sep in *.
  assert (Hrev : Forall (λ c, is_sep c = false) (rev (String.list_ascii_of_string name))).
  { by apply List.Forall_rev. }
  destruct (rev (String.list_ascii_of_string name)) as [|c l] eqn:E.
  - simpl. destruct name; [done|]. simpl in E. by apply app_eq_nil in E as [_ [=]].
  - rewrite <- (app_nil_r (c :: l)), drop_seps_segment, app_nil_r; [|done|done].
    rewrite take_segment_all; [|done].
    by rewrite <- E, rev_involutive, String.string_of_list_ascii_of_string.
Qed.

Example basename_file : basename "/srv/media/clip.mp4" = "clip.mp4".
Proof. reflexivity. Qed.

Example basename_trailing_separator : basename "/srv/media/" = "media".
Proof. reflexivity. Qed.

Example basename_root : basename "/" = EmptyString.
Proof. reflexivity. Qed.

(** * Specified properties *)

(** ** Supporting facts for the failure paths of the stream transmitter *)

(** Once a chunk is answered with a status of 400 or more, no request
    is ever added, no chunk is delivered any more, and whatever the
    caller's promise becomes, it is not a [MaxError]. *)
Lemma error_status_is_final f u delay evs s k status s1 evs' s2 :
  srun f u (uploadFromStream f delay) evs = Some s →
  sstep f u s (EHeaders k status) = Some s1 →
  400 ≤ status →
  srun f u s1 evs' = Some s2 →
  st_requests s2 = st_requests s1 ∧ st_pending s2 = st_pending s1 ∧
  ∀ st body, st_promise s2 ≠ Rejected (MaxError st body).
Proof.
  intros Hrun Hstep Hst Hrun'.
  pose proof (inv_reachable _ _ _ _ _ Hrun) as [(pre & Hcs & Hm) _ _ _ _ _ _ _ _].
  assert (Hd : doomed s1).
  { simpl in Hstep. destruct (st_inflight s !! k) as [l|] eqn:Hk; [|done].
    destruct (l_phase l) eqn:Hph; try done. injection Hstep as <-.
    destruct (mode_inflight _ _ _ _ _ _ _ Hm Hk)
      as (p & c & _ & _ & _ & Hfl & Hin & _).
    unfold on_headers. apply Z.leb_le in Hst. rewrite Hst. simpl.
    split; [done|].
    simpl. rewrite Hin, insert_singleton_eq.
    intros k' l' [_ <-]%lookup_singleton_Some. simpl. eauto. }
  destruct (doomed_run _ _ _ _ _ Hd Hrun') as (_ & Hreq & Hpend & _).
  split_and!; [done|done|].
  intros st body Hpr.
  assert (Hfull : srun f u (uploadFromStream f delay) ((evs ++ [EHeaders k status]) ++ evs') = Some s2).
  { rewrite srun_app.
    assert (H1 : srun f u (uploadFromStream f delay) (evs ++ [EHeaders k status]) = Some s1)
      by (apply srun_snoc; eauto).
    by rewrite H1. }
  destruct (stream_promise_shapes _ _ _ _ _ Hfull) as [H|[(v & H & _)|[H|(code & H)]]];
    congruence.
Qed.

(** Once the signal is raised, no request is ever added, and whatever
    the caller's promise becomes, it is not an abort error. *)
Lemma abort_is_final f u delay evs s evs' s2 :
  srun f u (uploadFromStream f delay) evs = Some s →
  st_aborted s = true →
  srun f u s evs' = Some s2 →
  st_requests s2 = st_requests s ∧ st_promise s2 ≠ Rejected AbortError.
Proof.
  intros Hrun Hab Hrun'.
  destruct (aborted_run _ _ _ _ _ Hab Hrun') as [_ Hreq].
  split; [done|]. intros Hpr.
  assert (Hfull : srun f u (uploadFromStream f delay) (evs ++ evs') = Some s2)
    by (by rewrite srun_app, Hrun).
  destruct (stream_promise_shapes _ _ _ _ _ Hfull) as [H|[(v & H & _)|[H|(code & H)]]];
    congruence.
Qed.

(** ** C1 *)

(** C1 (fails on the code).  A video upload of a two-chunk file whose
    first chunk the server answers with status 500 and a JSON error
    body: the second chunk is never sent, but the promise returned to
    the caller is still pending a minute later; the [MaxError] carrying
    500 and the body sits in the promise the 'data' listener returned
    to the stream, which nothing observes. *)
Theorem error_status_leaves_call_pending :
  ∃ c,
    session_run (video demo_env (SrcPath demo_path) None) rejected_chunk_events = Some c ∧
    session_promise c = Pending ∧
    session_unhandled c = [MaxError 500 demo_failure] ∧
    length (session_network c) = 2%nat.
Proof.
  eexists. split; [vm_compute; reflexivity|]. by vm_compute.
Qed.

(** ** C2 *)

(** C2 (fails on the code).  Without a timeout option the deadline is
    20 000 ms.  When it passes while the first chunk of a stream upload
    is unanswered, the signal is raised and nothing more is sent, but
    the abort error ends up in the listener's dropped promise and the
    call stays pending; the same deadline on a buffer upload rejects
    the call with the abort error. *)
Theorem deadline_leaves_stream_call_pending :
  timeoutDelay None = 20000 ∧
  (∃ c,
    session_run (video demo_env (SrcPath demo_path) None) slow_server_events = Some c ∧
    session_promise c = Pending ∧
    session_unhandled c = [AbortError] ∧
    length (session_network c) = 2%nat) ∧
  (∃ c,
    session_run (video demo_env (SrcBuffer (buffer demo_buffer)) None) [ETick 20000] = Some c ∧
    session_promise c = Rejected AbortError).
Proof.
  split; [done|]. split.
  - eexists. split; [vm_compute; reflexivity|]. by vm_compute.
  - eexists. split; [vm_compute; reflexivity|]. by vm_compute.
Qed.

(** ** C3 *)

(** C3 (amended).  In every state a stream upload reaches: the i-th
    request sent carries the i-th chunk and the range that starts where
    the chunks before it stop, out of [contentLength]; at most one
    request is unanswered, and a chunk is only delivered (and its
    request sent) when none is; until the signal is raised there is
    exactly one request per delivered chunk, and once every chunk is
    delivered the last range ends at the last byte delivered, which is
    byte [contentLength - 1] when the chunks add up to [contentLength]. *)
Theorem chunk_requests_sequential f u delay evs s :
  srun f u (uploadFromStream f delay) evs = Some s →
  (∀ i r, st_requests s !! i = Some r → spec_request f u i = Some r) ∧
  (base.size (st_inflight s) ≤ 1)%nat ∧
  (∀ s', sstep f u s EData = Some s' → st_inflight s = ∅) ∧
  (st_aborted s = false →
     (length (st_requests s) + length (st_pending s))%nat =
     length (rs_chunks (stream f))) ∧
  (st_aborted s = false → st_pending s = [] →
     ∀ c, last (rs_chunks (stream f)) = Some c →
       last (st_requests s) =
       Some (chunk_request f u c
               (total_length (rs_chunks (stream f)) - chunk_length c)
               (total_length (rs_chunks (stream f)) - 1))) ∧
  (st_aborted s = false → st_pending s = [] →
     total_length (rs_chunks (stream f)) = contentLength f →
     ∀ c, last (rs_chunks (stream f)) = Some c →
       last (st_requests s) =
       Some (chunk_request f u c (contentLength f - chunk_length c) (contentLength f - 1))).
Proof.
  intros Hrun.
  assert (Hlast : st_aborted s = false → st_pending s = [] →
     ∀ c, last (rs_chunks (stream f)) = Some c →
       last (st_requests s) =
       Some (chunk_request f u c
               (total_length (rs_chunks (stream f)) - chunk_length c)
               (total_length (rs_chunks (stream f)) - 1))).
  { intros Hab Hpend c Hlast.
    destruct (requests_of_delivered _ _ _ _ _ Hrun Hab) as (pre & Hcs & ->).
    rewrite Hpend, app_nil_r in Hcs. subst pre.
    apply last_Some in Hlast as [cs Hcs]. rewrite Hcs.
    rewrite total_length_snoc, range_requests_snoc, last_snoc. do 2 f_equal; lia. }
  split_and!.
  - intros i r Hi. destruct (requests_prefix _ _ _ _ _ Hrun) as [n Hn].
    rewrite Hn in Hi. apply lookup_take_Some in Hi as [Hi _].
    by rewrite <- range_requests_lookup.
  - by eapply inflight_at_most_one.
  - intros s' Hstep. simpl in Hstep.
    destruct (st_flowing s) eqn:Hfl; [|done].
    by destruct (flowing_idle _ _ _ _ _ Hrun Hfl) as [Hin _].
  - intros Hab.
    destruct (requests_of_delivered _ _ _ _ _ Hrun Hab) as (pre & -> & ->).
    by rewrite length_range_requests, length_app.
  - exact Hlast.
  - intros Hab Hpend Hsum c Hc. rewrite <- Hsum. by apply Hlast.
Qed.

Lemma chunk_requests_sequential_witness :
  ∃ s,
    srun demo_stream demo_url (uploadFromStream demo_stream 20000) two_chunk_early_end = Some s ∧
    map req_headers (st_requests s) =
      [[("Content-Disposition", content_disposition "clip.mp4");
        ("Content-Range", "bytes 0-999/1500")];
       [("Content-Disposition", content_disposition "clip.mp4");
        ("Content-Range", "bytes 1000-1499/1500")]] ∧
    ∀ i r, st_requests s !! i = Some r → spec_request demo_stream demo_url i = Some r.
Proof.
  eexists. split; [vm_compute; reflexivity|]. split; [by vm_compute|].
  apply (chunk_requests_sequential demo_stream demo_url 20000 two_chunk_early_end).
  vm_compute. reflexivity.
Defined.

(** C3 as first stated fails: a stream the caller opened on the last
    500 bytes of a 1500-byte file is normalized with the size [stat]
    reports; its only chunk is sent as bytes 0-499 out of 1500, so the
    ranges do not add up to [contentLength]. *)
Lemma ranges_need_not_sum_to_contentLength :
  ∃ f s,
    getStreamFromSource demo_env (SrcStream tail_stream) = inr (UFStream f) ∧
    srun f demo_url (uploadFromStream f 20000) [EData] = Some s ∧
    st_pending s = [] ∧
    map req_headers (st_requests s) =
      [[("Content-Disposition", content_disposition "clip.mp4");
        ("Content-Range", "bytes 0-499/1500")]] ∧
    total_length (rs_chunks (stream f)) = 500 ∧
    contentLength f = 1500 ∧
    last (st_requests s) ≠
      Some (chunk_request f demo_url (replicate 500 Byte.x2b)
              (contentLength f - 500) (contentLength f - 1)).
Proof.
  eexists _, _. split; [vm_compute; reflexivity|].
  split; [vm_compute; reflexivity|].
  split_and!; try by vm_compute.
Qed.

(** ** C4 *)

(** C4.  When a stream upload resolves, its value is the first parsed
    body that was retained, that is the first truthy one in order of
    arrival (the very first parsed body when that one is truthy, as any
    JSON object is); later bodies do not replace it.  The status of
    every answer is looked at: only the answer to the last chunk, which
    the 'end' listener does not wait for, can have had a status of 400
    or more. *)
Theorem stream_result_is_first_retained f u delay evs s v :
  srun f u (uploadFromStream f delay) evs = Some s →
  st_promise s = Resolved v →
  List.find truthy (data_bodies evs) = Some v ∧
  (∀ v0, head (data_bodies evs) = Some v0 → truthy v0 = true → v = v0) ∧
  (∀ k status, EHeaders k status ∈ evs → 400 ≤ status →
     S k = length (rs_chunks (stream f))).
Proof.
  intros Hrun Hpr.
  destruct (resolved_retained _ _ _ _ _ Hrun _ Hpr) as (Hen & Hpend & Hv & Hud).
  pose proof (inv_reachable _ _ _ _ _ Hrun) as HI.
  assert (Hfind : List.find truthy (data_bodies evs) = Some v).
  { rewrite <- Hud. apply (inv_retained _ _ _ _ _ HI). by rewrite Hud. }
  split_and!; [done| |].
  - intros v0 Hhead Hv0. destruct (data_bodies evs) as [|b bs]; [done|].
    injection Hhead as ->. simpl in Hfind. rewrite Hv0 in Hfind. congruence.
  - intros k status Hin Hst.
    destruct (inv_bad_status _ _ _ _ _ HI _ _ Hin Hst) as [_ Hlen].
    rewrite Hpend in Hlen. simpl in Hlen. lia.
Qed.

Lemma stream_result_is_first_retained_witness :
  ∃ s,
    srun demo_stream demo_url (uploadFromStream demo_stream 20000) two_chunk_early_end = Some s ∧
    st_promise s = Resolved demo_payload ∧
    List.find truthy (data_bodies two_chunk_early_end) = Some demo_payload.
Proof.
  eexists. split; [vm_compute; reflexivity|]. split; [by vm_compute|].
  eapply (stream_result_is_first_retained demo_stream demo_url 20000 two_chunk_early_end);
    [vm_compute; reflexivity|by vm_compute].
Defined.

(** The same scenario when the second answer, which comes after 'end',
    is a 500: the call has resolved with the payload all the same. *)
Example late_failure_is_ignored :
  ∃ s,
    srun demo_stream demo_url (uploadFromStream demo_stream 20000) late_failure_events = Some s ∧
    st_promise s = Resolved demo_payload ∧
    st_unhandled s = [MaxError 500 demo_failure].
Proof. eexists. split; [vm_compute; reflexivity|]. by vm_compute. Qed.

(** ** C5 *)

(** C5.  A buffer upload has sent exactly one request in every state it
    reaches: a POST whose body is a form with the single field [data]
    holding the buffer's bytes under the file name, and no headers of
    the code's own.  If the body of the answer parsed to [v], the call
    resolved with [v]; no status is looked at: whatever the status, the
    answer followed by its parsed body resolves the call. *)
Theorem buffer_upload_single_post f u delay evs s :
  brun (uploadFromBuffer f u delay) evs = Some s →
  b_requests s =
    [{| req_url := u; req_method := "POST";
        req_body := FormBody [{| ff_name := "data"; ff_blob := buffer f;
                                 ff_filename := fb_fileName f |}];
        req_headers := [] |}] ∧
  (∀ k v, EBody k (Some v) ∈ evs → b_promise s = Resolved v) ∧
  (∀ status v,
     ∃ s', brun (uploadFromBuffer f u delay) [EHeaders 0 status; EBody 0 (Some v)] = Some s' ∧
           b_promise s' = Resolved v ∧ length (b_requests s') = 1%nat).
Proof.
  intros Hrun. destruct (binv_reachable _ _ _ _ _ Hrun) as [Hreq _ Hres].
  split_and!; [done|done|].
  intros status v. eexists. by split_and!.
Qed.

Lemma buffer_upload_single_post_witness :
  ∃ s,
    brun (uploadFromBuffer demo_buffer demo_url 20000)
      [EHeaders 0 500; ETick 10; EBody 0 (Some demo_failure)] = Some s ∧
    b_promise s = Resolved demo_failure ∧
    length (b_requests s) = 1%nat.
Proof.
  eexists. split; [vm_compute; reflexivity|].
  edestruct (buffer_upload_single_post demo_buffer demo_url 20000
               [EHeaders 0 500; ETick 10; EBody 0 (Some demo_failure)])
    as (Hreq & Hres & _); [vm_compute; reflexivity|].
  split.
  - apply (Hres 0%nat). set_solver.
  - by rewrite Hreq.
Defined.

(** ** C6 *)

(** C6.  A path that [stat] reports as something other than a regular
    file makes each public method reject with the not-a-file error
    before [getUploadUrl] or any transfer request; the call's network
    log is empty and stays so. *)
Theorem not_a_file_before_network env p st timeout :
  stat env (PStr p) = inr st →
  isFile st = false →
  let failed := Failed (Error (not_a_file_message (basename p))) [] in
  image env (FromSource (SrcPath p)) timeout = failed ∧
  video env (SrcPath p) timeout = failed ∧
  file env (SrcPath p) timeout = failed ∧
  audio env (SrcPath p) timeout = failed ∧
  ∀ evs c, session_run failed evs = Some c →
    session_promise c = Rejected (Error (not_a_file_message (basename p))) ∧
    session_network c = [].
Proof.
  intros Hst Hfile failed.
  assert (Hsrc : ∀ type, upload_source env type (SrcPath p) timeout = failed).
  { intros type. unfold upload_source. simpl. by rewrite Hst, Hfile. }
  split_and!; try apply Hsrc.
  induction evs as [|e evs IH]; intros c Hrun; simpl in Hrun.
  - by injection Hrun as <-.
  - destruct e; try done. destruct (0 <=? ms); [|done]. by apply IH.
Qed.

Lemma not_a_file_before_network_witness :
  video demo_env (SrcPath demo_dir) None =
    Failed (Error "Failed to upload media. Not a file") [] ∧
  session_network (video demo_env (SrcPath demo_dir) None) = [].
Proof.
  destruct (not_a_file_before_network demo_env demo_dir
              {| isFile := false; size := 4096 |} None eq_refl eq_refl)
    as (_ & Hvideo & _).
  rewrite Hvideo. by vm_compute.
Defined.

(** ** C7 *)

(** C7.  A stream that has no chunk to deliver and ends makes the call
    reject with the failed-upload error. *)
Theorem empty_stream_fails f u delay evs s :
  rs_chunks (stream f) = [] →
  srun f u (uploadFromStream f delay) evs = Some s →
  st_ended s = true →
  st_promise s = Rejected (Error "Failed to upload").
Proof.
  intros Hcs Hrun Hen.
  pose proof (inv_reachable _ _ _ _ _ Hrun) as HI.
  destruct (inv_ended _ _ _ _ _ HI Hen) as (_ & _ & [Hpr|(v & _ & Hv & Hud)]); [done|].
  destruct (requests_prefix _ _ _ _ _ Hrun) as [n Hreq].
  rewrite Hcs in Hreq. simpl in Hreq. rewrite take_nil in Hreq.
  rewrite (inv_first _ _ _ _ _ HI Hreq) in Hud. by subst v.
Qed.

Lemma empty_stream_fails_witness :
  ∃ s,
    srun empty_stream demo_url (uploadFromStream empty_stream 20000) [EEnd] = Some s ∧
    st_promise s = Rejected (Error "Failed to upload").
Proof.
  eexists. split; [reflexivity|].
  by apply (empty_stream_fails empty_stream demo_url 20000 [EEnd]).
Defined.

(** ** C8 *)

(** C8.  A path that [stat] reports as a regular file of size [S] is
    normalised to a stream-backed file over a stream opened on that
    path, with [contentLength = S] and the path's basename as file name:
    the last segment of a path with directories, the path itself when it
    has none. *)
Theorem path_source_normalized env p st :
  stat env (PStr p) = inr st →
  isFile st = true →
  getStreamFromSource env (SrcPath p) =
    inr (UFStream {| stream := createReadStream env p;
                     fs_fileName := basename p;
                     contentLength := size st |}) ∧
  (∀ dir name, p = dir +:+ "/" +:+ name → name ≠ EmptyString → no_sep name →
     basename p = name) ∧
  (no_sep p → basename p = p).
Proof.
  intros Hst Hfile. split_and!.
  - simpl. by rewrite Hst, Hfile.
  - intros dir name -> Hne Hns. by apply basename_final_segment.
  - apply basename_bare.
Qed.

Lemma path_source_normalized_witness :
  getStreamFromSource demo_env (SrcPath demo_path) = inr (UFStream demo_stream).
Proof.
  destruct (path_source_normalized demo_env demo_path
              {| isFile := true; size := 1500 |} eq_refl eq_refl) as (-> & _).
  reflexivity.
Defined.

(** ** C9 *)

(** C9.  When the stream has ended and every body that was parsed is
    falsy, the call has rejected with the failed-upload error, whatever
    the statuses of the answers were. *)
Theorem falsy_bodies_fail_upload f u delay evs s :
  srun f u (uploadFromStream f delay) evs = Some s →
  st_ended s = true →
  Forall (λ v, truthy v = false) (data_bodies evs) →
  st_promise s = Rejected (Error "Failed to upload").
Proof.
  intros Hrun Hen Hfalsy.
  pose proof (inv_reachable _ _ _ _ _ Hrun) as HI.
  destruct (inv_ended _ _ _ _ _ HI Hen) as (_ & _ & [Hpr|(v & _ & Hv & Hud)]); [done|].
  assert (Hfind : List.find truthy (data_bodies evs) = Some v).
  { rewrite <- Hud. apply (inv_retained _ _ _ _ _ HI). by rewrite Hud. }
  apply List.find_some in Hfind as [Hin _].
  apply list_elem_of_In in Hin.
  by rewrite (proj1 (Forall_forall _ _) Hfalsy _ Hin) in Hv.
Qed.

Lemma falsy_bodies_fail_upload_witness :
  ∃ s,
    srun demo_stream demo_url (uploadFromStream demo_stream 20000) falsy_body_events = Some s ∧
    st_promise s = Rejected (Error "Failed to upload") ∧
    length (st_requests s) = 2%nat.
Proof.
  eexists. split; [vm_compute; reflexivity|]. split; [|by vm_compute].
  apply (falsy_bodies_fail_upload demo_stream demo_url 20000 falsy_body_events);
    [by vm_compute|by vm_compute|].
  repeat constructor.
Defined.

(** ** C10 *)


(** * Further properties of the code *)

(** ** Stream transmitter *)

Lemma request_bytes_range f u (cs : list chunk) : ∀ offset,
  map request_bytes (range_requests f u offset cs) = cs.
Proof.
  induction cs as [|c cs IH]; intros offset; simpl; [done|]. by rewrite IH.
Qed.

Lemma retained_step f u delay evs s e s' :
  srun f u (uploadFromStream f delay) evs = Some s →
  truthy (uploadData s) = true →
  sstep f u s e = Some s' →
  uploadData s' = uploadData s.
Proof.
  intros Hrun Hud Hstep.
  destruct (inv_reachable _ _ _ _ _ Hrun) as [(pre & _ & Hm) _ _ _ _ _ _].
  destruct e; simpl in Hstep; crack Hstep;
    try match goal with
    | H : st_inflight s !! _ = Some _ |- _ =>
        destruct (mode_inflight _ _ _ _ _ _ _ Hm H)
          as (? & ? & _ & _ & _ & _ & _ & _ & _ & _ & _ & Hfalsy & _)
    end;
    crack_goal; try done.
  by rewrite Hfalsy in Hud.
Qed.



(** X1.  When the stream emits 'error' during an upload, the call is
    rejected with that error and the timer is cleared; the request that
    is in flight is neither cancelled nor is the signal raised. *)
Theorem stream_error_rejects_call f u delay evs s code s' :
  srun f u (uploadFromStream f delay) evs = Some s →
  sstep f u s (EStreamErr code) = Some s' →
  st_promise s' = Rejected (FsError code) ∧
  st_timer s' = None ∧
  st_inflight s' = st_inflight s ∧
  st_aborted s' = st_aborted s ∧
  st_requests s' = st_requests s.
Proof.
  intros Hrun Hstep.
  pose proof (inv_live _ _ _ _ _ (inv_reachable _ _ _ _ _ Hrun)) as Hlive.
  simpl in Hstep. crack Hstep. bools.
  unfold settle. simpl. by rewrite Hlive.
Qed.

Lemma stream_error_rejects_call_witness :
  ∃ s s',
    srun demo_stream demo_url (uploadFromStream demo_stream 20000) [EData] = Some s ∧
    sstep demo_stream demo_url s (EStreamErr "EIO") = Some s' ∧
    st_promise s' = Rejected (FsError "EIO") ∧
    base.size (st_inflight s') = 1%nat.
Proof.
  eexists _, _. split; [vm_compute; reflexivity|]. split; [vm_compute; reflexivity|].
  split; [|by vm_compute].
  eapply (stream_error_rejects_call demo_stream demo_url 20000 [EData]);
    vm_compute; reflexivity.
Defined.

(** X2.  A stream upload settles once: after the caller's promise is
    resolved or rejected no event changes it, the timer is cleared and
    the signal is never raised afterwards. *)
Theorem settled_stream_call_is_final f u delay evs s evs' s' :
  srun f u (uploadFromStream f delay) evs = Some s →
  st_promise s ≠ Pending →
  srun f u s evs' = Some s' →
  st_promise s' = st_promise s ∧ st_aborted s' = st_aborted s ∧ st_timer s' = None.
Proof.
  intros Hrun Hpr Hrun'.
  assert (Htm : st_timer s = None).
  { destruct (st_timer s) as [d|] eqn:Htm; [|done].
    by destruct (inv_timer_on _ _ _ _ _ (inv_reachable _ _ _ _ _ Hrun) d Htm)
      as (_ & _ & ? & _). }
  clear Hrun. revert s s' Hpr Htm Hrun'.
  induction evs' as [|e evs' IH]; intros s s' Hpr Htm Hrun'; simpl in Hrun'.
  - by injection Hrun' as <-.
  - destruct (sstep f u s e) as [s1|] eqn:Hstep; [|done].
    destruct (settled_step _ _ _ _ _ Hpr Htm Hstep) as (Hp1 & Ha1 & Ht1).
    destruct (IH s1 s') as (Hp' & Ha' & Ht'); [congruence|done|done|].
    split_and!; congruence.
Qed.

Lemma settled_stream_call_is_final_witness :
  ∃ s s',
    srun demo_stream demo_url (uploadFromStream demo_stream 20000) two_chunk_events = Some s ∧
    srun demo_stream demo_url s [ETick 60000] = Some s' ∧
    st_promise s' = Resolved demo_payload ∧ st_aborted s' = false.
Proof.
  eexists _, _. split; [vm_compute; reflexivity|]. split; [vm_compute; reflexivity|].
  pose proof (λ s s', settled_stream_call_is_final demo_stream demo_url 20000
                         two_chunk_events s [ETick 60000] s') as H.
  edestruct H as (Hp & Ha & _); [vm_compute; reflexivity|by vm_compute|vm_compute; reflexivity|].
  split; [by rewrite Hp|by rewrite Ha].
Defined.

(** X3.  A fetch that rejects and a response body that is not JSON are
    not reported to the caller: the error lands in the promise the
    'data' listener returned, the caller's promise is left as it was,
    and the stream stays paused with nothing in flight. *)
Theorem transport_failure_is_swallowed f u delay evs s e err s' :
  srun f u (uploadFromStream f delay) evs = Some s →
  (∃ k reason, e = EFetchFail k reason ∧ err = FetchError reason) ∨
  (∃ k, e = EBody k None ∧ err = SyntaxError) →
  sstep f u s e = Some s' →
  st_unhandled s' = [err] ∧
  st_promise s' = st_promise s ∧
  st_flowing s' = false ∧
  st_inflight s' = ∅.
Proof.
  intros Hrun He Hstep.
  destruct (inv_reachable _ _ _ _ _ Hrun) as [(pre & _ & Hm) _ _ _ _ _ _].
  destruct He as [(k & reason & -> & ->)|(k & -> & ->)]; simpl in Hstep;
    destruct (st_inflight s !! k) as [l|] eqn:Hk; try done;
    destruct (mode_inflight _ _ _ _ _ _ _ Hm Hk)
      as (p & c & _ & _ & _ & Hfl & Hin & Hun & _);
    crack Hstep; simpl; rewrite Hun, Hin, delete_singleton_eq; done.
Qed.

Lemma transport_failure_is_swallowed_witness :
  ∃ s s',
    srun demo_stream demo_url (uploadFromStream demo_stream 20000) [EData] = Some s ∧
    sstep demo_stream demo_url s (EFetchFail 0 "ECONNRESET") = Some s' ∧
    st_unhandled s' = [FetchError "ECONNRESET"] ∧
    st_promise s' = Pending.
Proof.
  eexists _, _. split; [vm_compute; reflexivity|]. split; [vm_compute; reflexivity|].
  pose proof (λ s s', transport_failure_is_swallowed demo_stream demo_url 20000 [EData]
                         s (EFetchFail 0 "ECONNRESET") (FetchError "ECONNRESET") s') as H.
  edestruct H as (Hun & Hpr & _);
    [vm_compute; reflexivity|left; by eexists _, _|vm_compute; reflexivity|].
  split; [exact Hun|by rewrite Hpr].
Defined.

(** X4.  Once an invocation of the 'data' listener has thrown, whatever
    the reason, the transfer is over: no request is ever added, no chunk
    is delivered any more and [uploadData] keeps its value.  If chunks
    were still to come, the stream never ends and the call is never
    resolved. *)
Theorem listener_failure_is_final f u delay evs s evs' s' :
  srun f u (uploadFromStream f delay) evs = Some s →
  st_unhandled s ≠ [] →
  srun f u s evs' = Some s' →
  st_requests s' = st_requests s ∧
  st_pending s' = st_pending s ∧
  uploadData s' = uploadData s ∧
  (st_pending s ≠ [] → st_ended s' = false ∧ ∀ v, st_promise s' ≠ Resolved v).
Proof.
  intros Hrun Hun Hrun'.
  pose proof (inv_reachable _ _ _ _ _ Hrun) as [(pre & _ & Hm) _ _ _ _ _ _ _ _].
  assert (Hd : doomed s).
  { destruct Hm as [_ _ H|p c ph _ _ _ H|Hfl Hin _ _ _]; try done.
    split; [done|]. intros k l Hk. by rewrite Hin, lookup_empty in Hk. }
  destruct (doomed_run _ _ _ _ _ Hd Hrun') as (_ & Hreq & Hpend & Hud).
  split_and!; try done.
  intros Hmore.
  assert (Hfull : srun f u (uploadFromStream f delay) (evs ++ evs') = Some s')
    by (by rewrite srun_app, Hrun).
  assert (Hen : st_ended s' = false).
  { destruct (st_ended s') eqn:Hen; [|done].
    destruct (inv_ended _ _ _ _ _ (inv_reachable _ _ _ _ _ Hfull) Hen) as (H & _).
    congruence. }
  split; [done|]. intros v Hpr.
  destruct (resolved_retained _ _ _ _ _ Hfull _ Hpr) as (H & _). congruence.
Qed.

Lemma listener_failure_is_final_witness :
  ∃ s s',
    srun demo_stream demo_url (uploadFromStream demo_stream 20000)
      [EData; EHeaders 0 200; EBody 0 None] = Some s ∧
    srun demo_stream demo_url s [ETick 5; EStreamErr "EIO"] = Some s' ∧
    length (st_requests s') = 1%nat ∧
    st_ended s' = false.
Proof.
  eexists _, _. split; [vm_compute; reflexivity|]. split; [vm_compute; reflexivity|].
  pose proof (λ s s', listener_failure_is_final demo_stream demo_url 20000
                         [EData; EHeaders 0 200; EBody 0 None] s
                         [ETick 5; EStreamErr "EIO"] s') as H.
  edestruct H as (Hreq & _ & _ & Hmore);
    [vm_compute; reflexivity|by vm_compute|vm_compute; reflexivity|].
  split; [by rewrite Hreq|]. apply Hmore. by vm_compute.
Defined.

(** X5.  A stream upload that resolved has had every chunk of the
    stream delivered; unless the signal was raised it has sent them all,
    once and in order (the bodies of its requests are the stream's
    chunks), but the request of the last chunk may still be unanswered:
    nothing else can be in flight. *)
Theorem resolved_upload_sent_everything f u delay evs s v :
  srun f u (uploadFromStream f delay) evs = Some s →
  st_promise s = Resolved v →
  st_pending s = [] ∧
  (st_aborted s = false →
     st_requests s = range_requests f u 0 (rs_chunks (stream f)) ∧
     map request_bytes (st_requests s) = rs_chunks (stream f)) ∧
  (∀ k l, st_inflight s !! k = Some l → S k = length (rs_chunks (stream f))).
Proof.
  intros Hrun Hpr.
  destruct (resolved_retained _ _ _ _ _ Hrun _ Hpr) as (_ & Hpend & _).
  split_and!; [done| |].
  - intros Hab.
    destruct (requests_of_delivered _ _ _ _ _ Hrun Hab) as (pre & Hcs & Hreq).
    rewrite Hpend, app_nil_r in Hcs. subst pre.
    split; [done|]. rewrite Hreq. apply request_bytes_range.
  - intros k l Hk. pose proof (inflight_is_last _ _ _ _ _ Hrun _ _ Hk) as H.
    rewrite Hpend in H. simpl in H. lia.
Qed.

Lemma resolved_upload_sent_everything_witness :
  ∃ s,
    srun demo_stream demo_url (uploadFromStream demo_stream 20000)
      [EData; EHeaders 0 200; EBody 0 (Some demo_payload); EData; EEnd] = Some s ∧
    base.size (st_inflight s) = 1%nat ∧
    map request_bytes (st_requests s) = rs_chunks (stream demo_stream).
Proof.
  eexists. split; [vm_compute; reflexivity|]. split; [by vm_compute|].
  edestruct (resolved_upload_sent_everything demo_stream demo_url 20000
               [EData; EHeaders 0 200; EBody 0 (Some demo_payload); EData; EEnd])
    as (_ & Hb & _); [vm_compute; reflexivity|by vm_compute|].
  apply Hb. by vm_compute.
Defined.

(** X6.  Once a truthy payload is retained in [uploadData], nothing
    that happens later changes it. *)
Theorem retained_payload_is_stable f u delay evs s evs' s' :
  srun f u (uploadFromStream f delay) evs = Some s →
  truthy (uploadData s) = true →
  srun f u s evs' = Some s' →
  uploadData s' = uploadData s.
Proof.
  revert evs s. induction evs' as [|e evs' IH]; intros evs s Hrun Hud Hrun';
    simpl in Hrun'.
  - by injection Hrun' as <-.
  - destruct (sstep f u s e) as [s1|] eqn:Hstep; [|done].
    pose proof (retained_step _ _ _ _ _ _ _ Hrun Hud Hstep) as H1.
    assert (Hrun1 : srun f u (uploadFromStream f delay) (evs ++ [e]) = Some s1)
      by (apply srun_snoc; eauto).
    rewrite <- H1. apply (IH _ _ Hrun1); [congruence|done].
Qed.

Lemma retained_payload_is_stable_witness :
  ∃ s s',
    srun demo_stream demo_url (uploadFromStream demo_stream 20000)
      [EData; EHeaders 0 200; EBody 0 (Some demo_payload)] = Some s ∧
    srun demo_stream demo_url s [EData; EHeaders 1 200; EEnd] = Some s' ∧
    uploadData s' = demo_payload.
Proof.
  eexists _, _. split; [vm_compute; reflexivity|]. split; [vm_compute; reflexivity|].
  pose proof (λ s s', retained_payload_is_stable demo_stream demo_url 20000
                         [EData; EHeaders 0 200; EBody 0 (Some demo_payload)] s
                         [EData; EHeaders 1 200; EEnd] s') as H.
  erewrite H; [|vm_compute; reflexivity|by vm_compute|vm_compute; reflexivity].
  by vm_compute.
Defined.

(** X7.  The result is decided when the stream emits 'end': the call
    resolves with what [uploadData] holds at that moment if it is
    truthy and rejects with the failed-upload error otherwise, and
    answers that arrive later do not change it. *)
Theorem result_is_decided_at_end f u delay evs1 s1 s2 evs2 s :
  srun f u (uploadFromStream f delay) evs1 = Some s1 →
  sstep f u s1 EEnd = Some s2 →
  srun f u s2 evs2 = Some s →
  st_promise s = end_result (uploadData s1).
Proof.
  intros Hrun1 Hend Hrun2.
  pose proof (inv_reachable _ _ _ _ _ Hrun1) as HI.
  simpl in Hend. crack Hend. bools.
  assert (Hp : st_promise s1 = Pending) by (by apply (inv_live _ _ _ _ _ HI)).
  assert (Hs2 : st_promise (on_end (with_ended true s1)) = end_result (uploadData s1) ∧
                st_timer (on_end (with_ended true s1)) = None).
  { unfold on_end, settle, end_result. simpl. rewrite Hp.
    by destruct (truthy (uploadData s1)). }
  destruct Hs2 as [Hpr Htm].
  destruct (settled_run _ _ _ _ _ ltac:(rewrite Hpr; unfold end_result;
    by destruct (truthy (uploadData s1))) Htm Hrun2) as (-> & _). done.
Qed.

Lemma result_is_decided_at_end_witness :
  ∃ s1 s2 s,
    srun demo_stream demo_url (uploadFromStream demo_stream 20000)
      [EData; EHeaders 0 200; EBody 0 (Some JNull); EData] = Some s1 ∧
    sstep demo_stream demo_url s1 EEnd = Some s2 ∧
    srun demo_stream demo_url s2 [EHeaders 1 200; EBody 1 (Some demo_payload)] = Some s ∧
    uploadData s = demo_payload ∧
    st_promise s = Rejected (Error "Failed to upload").
Proof.
  eexists _, _, _. split; [vm_compute; reflexivity|].
  split; [vm_compute; reflexivity|]. split; [vm_compute; reflexivity|].
  split; [by vm_compute|].
  pose proof (λ s1 s2 s, result_is_decided_at_end demo_stream demo_url 20000
                [EData; EHeaders 0 200; EBody 0 (Some JNull); EData] s1 s2
                [EHeaders 1 200; EBody 1 (Some demo_payload)] s) as H.
  erewrite H; [|vm_compute; reflexivity|vm_compute; reflexivity|vm_compute; reflexivity].
  by vm_compute.
Defined.



(** ** Session manager, normalizer and public methods *)

Lemma session_run_streaming type f u (evs : list Event) : ∀ s c,
  session_run (Streaming type f u s) evs = Some c →
  ∃ s', srun f u s evs = Some s' ∧ c = Streaming type f u s'.
Proof.
  induction evs as [|e evs IH]; intros s c Hrun; simpl in *.
  - injection Hrun as <-. eauto.
  - destruct (sstep f u s e) as [s1|]; [|done]. by apply IH.
Qed.

Lemma session_run_streaming_of type f u (evs : list Event) : ∀ s s',
  srun f u s evs = Some s' →
  session_run (Streaming type f u s) evs = Some (Streaming type f u s').
Proof.
  induction evs as [|e evs IH]; intros s s' Hrun; simpl in *.
  - by injection Hrun as <-.
  - destruct (sstep f u s e) as [s1|]; [|done]. by apply IH.
Qed.

Lemma session_run_buffering type f u (evs : list Event) : ∀ s c,
  session_run (Buffering type f u s) evs = Some c →
  ∃ s', brun s evs = Some s' ∧ c = Buffering type f u s'.
Proof.
  induction evs as [|e evs IH]; intros s c Hrun; simpl in *.
  - injection Hrun as <-. eauto.
  - destruct (bstep s e) as [s1|]; [|done]. by apply IH.
Qed.

Lemma session_run_failed e net (evs : list Event) : ∀ c,
  session_run (Failed e net) evs = Some c → c = Failed e net ∧ Forall (λ e, is_tick e = true) evs.
Proof.
  induction evs as [|e0 evs IH]; intros c Hrun; simpl in *.
  - injection Hrun as <-. by split.
  - destruct e0; try done. destruct (0 <=? ms); [|done].
    destruct (IH _ Hrun) as [-> Hall]. split; [done|]. by constructor.
Qed.

Lemma session_run_passthrough url (evs : list Event) : ∀ c,
  session_run (Passthrough url) evs = Some c →
  c = Passthrough url ∧ Forall (λ e, is_tick e = true) evs.
Proof.
  induction evs as [|e0 evs IH]; intros c Hrun; simpl in *.
  - injection Hrun as <-. by split.
  - destruct e0; try done. destruct (0 <=? ms); [|done].
    destruct (IH _ Hrun) as [-> Hall]. split; [done|]. by constructor.
Qed.

Lemma fetched_map_Fetch (rs : list Request) : fetched (map Fetch rs) = rs.
Proof. induction rs as [|r rs IH]; simpl; [done|]. unfold fetched in *. simpl. by rewrite IH. Qed.

Lemma url_requests_map_Fetch (rs : list Request) : url_requests (map Fetch rs) = [].
Proof. induction rs as [|r rs IH]; simpl; [done|]. unfold url_requests in *. simpl. by rewrite IH. Qed.

Lemma range_requests_target f u (cs : list chunk) : ∀ offset,
  Forall (λ r, req_url r = u ∧ req_method r = "POST")
         (range_requests f u offset cs).
Proof.
  induction cs as [|c cs IH]; intros offset; simpl; constructor; [done|apply IH].
Qed.

(** X9.  Uploading a buffer through any public method, once the upload
    URL is granted: whatever happens next, the network log is the
    upload-URL request followed by the one POST, whose form field
    [data] carries exactly the caller's bytes under the generated name. *)
Theorem buffer_source_posts_its_bytes env type b timeout url evs c :
  getUploadUrl env type = inr url →
  session_run (upload_source env type (SrcBuffer b) timeout) evs = Some c →
  session_network c =
    [GetUploadUrl type;
     Fetch (buffer_request {| buffer := b; fb_fileName := randomUUID env |} url)] ∧
  map request_bytes (fetched (session_network c)) = [b].
Proof.
  intros Hurl Hrun. unfold upload_source, upload in Hrun. simpl in Hrun.
  rewrite Hurl in Hrun.
  apply session_run_buffering in Hrun as (s' & Hrun & ->).
  destruct (binv_reachable _ _ _ _ _ Hrun) as [Hreq _ _].
  simpl. rewrite Hreq. split; [done|].
  unfold fetched, request_bytes. simpl. by rewrite app_nil_r.
Qed.

Lemma buffer_source_posts_its_bytes_witness :
  ∃ c,
    session_run (audio demo_env (SrcBuffer (buffer demo_buffer)) None)
      [EHeaders 0 200; EBody 0 (Some demo_payload)] = Some c ∧
    map request_bytes (fetched (session_network c)) = [[Byte.x01; Byte.x02; Byte.x03]].
Proof.
  eexists. split; [vm_compute; reflexivity|].
  eapply (buffer_source_posts_its_bytes demo_env audio_t (buffer demo_buffer) None demo_url
            [EHeaders 0 200; EBody 0 (Some demo_payload)]);
    [reflexivity|vm_compute; reflexivity].
Defined.

(** X10.  A stream the caller opened is taken as it is: if [stat] on its
    path succeeds, normalization succeeds with the size [stat] reports,
    whether or not that path is a regular file, and the name is the
    path's basename, or a generated identifier when the path is a
    [Buffer]. *)
Theorem stream_source_normalized env rs st :
  stat env (rs_path rs) = inr st →
  getStreamFromSource env (SrcStream rs) =
    inr (UFStream {| stream := rs;
                     fs_fileName := match rs_path rs with
                                    | PStr p => basename p
                                    | PBuf _ => randomUUID env
                                    end;
                     contentLength := size st |}) ∧
  ∀ type timeout url,
    getUploadUrl env type = inr url →
    session_network (upload_source env type (SrcStream rs) timeout) = [GetUploadUrl type].
Proof.
  intros Hst. split.
  - simpl. by rewrite Hst.
  - intros type timeout url Hurl. unfold upload_source, upload. simpl.
    by rewrite Hst, Hurl.
Qed.

Lemma stream_source_normalized_witness :
  session_network (video demo_env (SrcStream demo_dir_stream) None) =
    [GetUploadUrl video_t].
Proof.
  destruct (stream_source_normalized demo_env demo_dir_stream
              {| isFile := false; size := 4096 |} eq_refl) as [_ H].
  by apply (H video_t None demo_url).
Defined.

(** X11.  If [stat] rejects, for a path or for the path of a stream the
    caller opened, the call rejects with that error before any network
    activity, and nothing but the passing of time can follow. *)
Theorem stat_failure_before_network env source code type timeout evs c :
  (∃ p, source = SrcPath p ∧ stat env (PStr p) = inl code) ∨
  (∃ rs, source = SrcStream rs ∧ stat env (rs_path rs) = inl code) →
  session_run (upload_source env type source timeout) evs = Some c →
  session_promise c = Rejected (FsError code) ∧
  session_network c = [] ∧
  Forall (λ e, is_tick e = true) evs.
Proof.
  intros Hsrc Hrun.
  assert (Hstart : upload_source env type source timeout = Failed (FsError code) []).
  { unfold upload_source.
    destruct Hsrc as [(p & -> & Hst)|(rs & -> & Hst)]; simpl; by rewrite Hst. }
  rewrite Hstart in Hrun. by apply session_run_failed in Hrun as [-> Hall].
Qed.

Lemma stat_failure_before_network_witness :
  session_promise (file demo_env (SrcPath "/srv/media/missing.bin") None) =
    Rejected (FsError "ENOENT") ∧
  session_network (file demo_env (SrcPath "/srv/media/missing.bin") None) = [].
Proof.
  edestruct (stat_failure_before_network demo_env (SrcPath "/srv/media/missing.bin")
               "ENOENT" file_t None []) as (Hp & Hn & _).
  - left. by eexists.
  - reflexivity.
  - split; [exact Hp|exact Hn].
Defined.

(** X12.  If the platform refuses the upload URL, the call rejects with
    the platform's error after that single request: no transfer request
    is ever made, whatever the source was normalized to. *)
Theorem upload_url_failure_stops_upload env type source uploadFile timeout e evs c :
  getStreamFromSource env source = inr uploadFile →
  getUploadUrl env type = inl e →
  session_run (upload_source env type source timeout) evs = Some c →
  session_promise c = Rejected e ∧
  session_network c = [GetUploadUrl type] ∧
  fetched (session_network c) = [].
Proof.
  intros Hsrc Hurl Hrun. unfold upload_source, upload in Hrun.
  rewrite Hsrc, Hurl in Hrun.
  by apply session_run_failed in Hrun as [-> _].
Qed.

Lemma upload_url_failure_stops_upload_witness :
  session_promise (video refusing_env (SrcPath demo_path) None) =
    Rejected (FetchError "ECONNREFUSED") ∧
  session_network (video refusing_env (SrcPath demo_path) None) = [GetUploadUrl video_t].
Proof.
  edestruct (upload_url_failure_stops_upload refusing_env video_t (SrcPath demo_path)
               (UFStream demo_stream) None (FetchError "ECONNREFUSED") [])
    as (Hp & Hn & _); [reflexivity|reflexivity|reflexivity|].
  split; [exact Hp|exact Hn].
Defined.

(** X13.  Every call asks for at most one upload URL, and every transfer
    request it makes is a POST to the URL that request returned. *)
Theorem transfers_target_granted_url env type source timeout evs c :
  session_run (upload_source env type source timeout) evs = Some c →
  (length (url_requests (session_network c)) ≤ 1)%nat ∧
  (fetched (session_network c) ≠ [] →
   ∃ url, getUploadUrl env type = inr url ∧
          url_requests (session_network c) = [type] ∧
          Forall (λ r, req_url r = url ∧ req_method r = "POST")
                 (fetched (session_network c))).
Proof.
  intros Hrun. unfold upload_source, upload in Hrun.
  destruct (getStreamFromSource env source) as [e|uploadFile].
  { apply session_run_failed in Hrun as [-> _]. simpl. split; [lia|done]. }
  destruct (getUploadUrl env type) as [e|url] eqn:Hurl.
  { apply session_run_failed in Hrun as [-> _]. simpl. split; [done|done]. }
  destruct uploadFile as [f|f].
  - apply session_run_streaming in Hrun as (s & Hrun & ->).
    cbn [session_network]. unfold url_requests, fetched. cbn [omap list_omap].
    fold (url_requests (map Fetch (st_requests s))).
    fold (fetched (map Fetch (st_requests s))).
    rewrite url_requests_map_Fetch, fetched_map_Fetch. split; [done|].
    intros _. exists url. split_and!; [done|done|].
    destruct (requests_prefix _ _ _ _ _ Hrun) as [n ->].
    apply Forall_take, range_requests_target.
  - apply session_run_buffering in Hrun as (s & Hrun & ->).
    destruct (binv_reachable _ _ _ _ _ Hrun) as [Hreq _ _].
    cbn [session_network]. rewrite Hreq. split; [done|].
    intros _. exists url. split_and!; [done|done|].
    by repeat constructor.
Qed.

Lemma transfers_target_granted_url_witness :
  ∃ c,
    session_run (video demo_env (SrcPath demo_path) None) two_chunk_events = Some c ∧
    Forall (λ r, req_url r = demo_url ∧ req_method r = "POST")
           (fetched (session_network c)).
Proof.
  eexists. split; [vm_compute; reflexivity|].
  edestruct (transfers_target_granted_url demo_env video_t (SrcPath demo_path) None
               two_chunk_events) as [_ H]; [vm_compute; reflexivity|].
  destruct H as (url & Hurl & _ & Hall); [by vm_compute|].
  injection Hurl as <-. exact Hall.
Defined.

(** X14.  End to end, for a path to a regular file and a granted upload
    URL, whatever the server and the stream do: the call makes exactly
    one upload-URL request, its transfers carry an initial segment of
    the file's chunks in order, a resolved value is the first truthy
    body parsed, and the only rejections the caller can see are the
    failed-upload error and an error of the stream. *)
Theorem path_upload_end_to_end env type p st url timeout evs c :
  stat env (PStr p) = inr st →
  isFile st = true →
  getUploadUrl env type = inr url →
  session_run (upload_source env type (SrcPath p) timeout) evs = Some c →
  url_requests (session_network c) = [type] ∧
  (∃ n, map request_bytes (fetched (session_network c)) = take n (file_chunks env p)) ∧
  (∀ v, session_promise c = Resolved v →
        List.find truthy (data_bodies evs) = Some v) ∧
  (∀ e, session_promise c = Rejected e →
        e = Error "Failed to upload" ∨ ∃ code, e = FsError code).
Proof.
  intros Hst Hfile Hurl Hrun.
  unfold upload_source, upload in Hrun. simpl in Hrun.
  rewrite Hst, Hfile, Hurl in Hrun. simpl in Hrun.
  apply session_run_streaming in Hrun as (s & Hrun & ->).
  cbn [session_promise session_network]. split_and!.
  - unfold url_requests. cbn [omap list_omap].
    fold (url_requests (map Fetch (st_requests s))).
    by rewrite url_requests_map_Fetch.
  - unfold fetched. cbn [omap list_omap].
    fold (fetched (map Fetch (st_requests s))).
    rewrite fetched_map_Fetch.
    destruct (requests_prefix _ _ _ _ _ Hrun) as [n ->]. exists n.
    rewrite <- List.firstn_map, request_bytes_range. done.
  - intros v Hpr.
    destruct (resolved_retained _ _ _ _ _ Hrun _ Hpr) as (_ & _ & Hv & Hud).
    rewrite <- Hud.
    apply (inv_retained _ _ _ _ _ (inv_reachable _ _ _ _ _ Hrun)). by rewrite Hud.
  - intros e Hpr.
    destruct (stream_promise_shapes _ _ _ _ _ Hrun)
      as [H|[(v & H & _)|[H|(code & H)]]]; try congruence.
    + left. congruence.
    + right. exists code. congruence.
Qed.

Lemma path_upload_end_to_end_witness :
  ∃ c,
    session_run (video demo_env (SrcPath demo_path) (Some 30000)) two_chunk_early_end = Some c ∧
    session_promise c = Resolved demo_payload ∧
    url_requests (session_network c) = [video_t].
Proof.
  eexists. split; [vm_compute; reflexivity|]. split; [by vm_compute|].
  eapply (path_upload_end_to_end demo_env video_t demo_path
            {| isFile := true; size := 1500 |} demo_url (Some 30000) two_chunk_early_end);
    [reflexivity|reflexivity|reflexivity|vm_compute; reflexivity].
Defined.

(** X15.  [image] called with a URL performs no upload: it resolves
    with that URL whatever the file system, the platform and the timeout
    option are, and makes no network call. *)
Theorem image_url_passthrough env url timeout evs c :
  session_run (image env (FromUrl url) timeout) evs = Some c →
  session_promise c = Resolved (JObj [("url", JStr url)]) ∧
  session_network c = [] ∧
  Forall (λ e, is_tick e = true) evs.
Proof.
  intros Hrun. simpl in Hrun.
  by apply session_run_passthrough in Hrun as [-> Hall].
Qed.

Lemma image_url_passthrough_witness :
  session_promise (image refusing_env (FromUrl "https://cdn.example/a.png") (Some 1)) =
    Resolved (JObj [("url", JStr "https://cdn.example/a.png")]).
Proof.
  by edestruct (image_url_passthrough refusing_env "https://cdn.example/a.png" (Some 1) [])
    as (Hp & _); [reflexivity|].
Defined.

(** ** Buffer transmitter: outcomes and deadline *)

Lemma bo_init f u delay : BOutcome delay [] (uploadFromBuffer f u delay).
Proof.
  split; simpl; try done.
  - intros d [= <-]. split_and!; try done. pose proof (setTimeout_delay_pos delay). lia.
Qed.

Lemma bo_step delay evs s e s' :
  BOutcome delay evs s → bstep s e = Some s' → BOutcome delay (evs ++ [e]) s'.
Proof.
  intros [Hon Hoff Hrun Hdone Hab] Hstep.
  assert (Hkeep : b_phase s = BDone →
    (∃ k v, b_promise s = Resolved v ∧ EBody k (Some v) ∈ evs ++ [e] ∧ b_aborted s = false) ∨
    (∃ k reason, b_promise s = Rejected (FetchError reason) ∧
                 EFetchFail k reason ∈ evs ++ [e] ∧ b_aborted s = false) ∨
    (b_promise s = Rejected SyntaxError ∧ (∃ k, EBody k None ∈ evs ++ [e]) ∧
     b_aborted s = false) ∨
    (b_promise s = Rejected AbortError ∧ b_aborted s = true)).
  { intros Hph. destruct (Hdone Hph)
      as [(k & v & ? & ? & ?)|[(k & r & ? & ? & ?)|[(? & (k & ?) & ?)|?]]].
    - left. exists k, v. split_and!; try done. apply elem_of_app. by left.
    - right. left. exists k, r. split_and!; try done. apply elem_of_app. by left.
    - right. right. left. split_and!; try done. exists k. apply elem_of_app. by left.
    - by repeat right. }
  assert (Hlast : e ∈ evs ++ [e]) by (apply elem_of_app; right; by apply list_elem_of_singleton).
  destruct e as [| | |k status|k reason|k parsed|ms]; simpl in Hstep; try done;
    crack Hstep; bools.
  - (* headers *)
    destruct (b_timer s) as [d|] eqn:Htm;
      [|by specialize (Hoff eq_refl); congruence].
    destruct (Hon d eq_refl) as (-> & _ & Hfa & Hlt).
    split; simpl; try done.
    + intros d [= <-]. by split_and!.
    + intros _. by apply Hrun.
  - (* fetch rejects *)
    destruct (b_timer s) as [d|] eqn:Htm;
      [|by specialize (Hoff eq_refl); congruence].
    destruct (Hon d eq_refl) as (-> & _ & Hfa & Hlt).
    split; simpl; try done.
    intros _. right. left. by exists 0%nat, reason.
  - (* body parsed *)
    destruct (b_timer s) as [d|] eqn:Htm;
      [|by specialize (Hoff eq_refl); congruence].
    destruct (Hon d eq_refl) as (-> & _ & Hfa & Hlt).
    split; simpl; try done.
    intros _. left. by exists 0%nat, j.
  - (* body not JSON *)
    destruct (b_timer s) as [d|] eqn:Htm;
      [|by specialize (Hoff eq_refl); congruence].
    destruct (Hon d eq_refl) as (-> & _ & Hfa & Hlt).
    split; simpl; try done.
    intros _. right. right. left. split_and!; try done. by exists 0%nat.
  - (* the deadline passes *)
    destruct (Hon z eq_refl) as (-> & Hph & Hfa & Hlt).
    unfold b_abort. simpl. destruct (b_phase s) eqn:E; try done;
      (split; simpl; try done; intros _; by repeat right).
  - (* time passes, timer armed *)
    destruct (Hon z eq_refl) as (-> & Hph & Hfa & Hlt).
    split; simpl; try done.
    + intros d [= <-]. by split_and!.
    + intros Ht. congruence.
  - (* time passes, timer cleared *)
    split; simpl; try done.
    intros Ht. specialize (Hab Ht). simpl in *. lia.
Qed.

Lemma bo_reachable f u delay (evs : list Event) : ∀ s,
  brun (uploadFromBuffer f u delay) evs = Some s → BOutcome delay evs s.
Proof.
  induction evs as [|e evs IH] using rev_ind; intros s Hrun.
  - injection Hrun as <-. apply bo_init.
  - apply brun_snoc in Hrun as (s1 & Hrun & Hstep).
    eapply bo_step; eauto.
Qed.

Lemma done_step s e s' :
  b_phase s = BDone → b_timer s = None → bstep s e = Some s' →
  is_tick e = true ∧ b_phase s' = BDone ∧ b_timer s' = None ∧
  b_promise s' = b_promise s ∧ b_aborted s' = b_aborted s ∧
  b_requests s' = b_requests s.
Proof.
  intros Hph Htm Hstep.
  destruct e; simpl in Hstep; rewrite ?Hph, ?Htm in Hstep; crack Hstep; try done.
Qed.

(** X16.  A buffer upload ends in one of four ways, each with its cause
    in the events: resolved with the parsed body, rejected with the
    error of a failed fetch, rejected because the body is not JSON, or
    rejected by the deadline, and then not before the timer's delay
    ([setTimeout]'s: the given delay, or 1 ms when that is not between
    1 and 2^31 - 1) has passed.  It never raises [MaxError], whatever
    the status of the answer. *)
Theorem buffer_call_outcomes f u delay evs s :
  brun (uploadFromBuffer f u delay) evs = Some s →
  ((b_promise s = Pending ∧ b_aborted s = false) ∨
   (∃ k v, b_promise s = Resolved v ∧ EBody k (Some v) ∈ evs) ∨
   (∃ k reason, b_promise s = Rejected (FetchError reason) ∧ EFetchFail k reason ∈ evs) ∨
   (b_promise s = Rejected SyntaxError ∧ ∃ k, EBody k None ∈ evs) ∨
   (b_promise s = Rejected AbortError ∧ b_aborted s = true ∧
    setTimeout_delay delay ≤ b_now s)) ∧
  ∀ status body, b_promise s ≠ Rejected (MaxError status body).
Proof.
  intros Hrun. destruct (bo_reachable _ _ _ _ _ Hrun) as [Hon Hoff Hrunning Hdone Hab].
  assert (Hcases :
    (b_promise s = Pending ∧ b_aborted s = false) ∨
    (∃ k v, b_promise s = Resolved v ∧ EBody k (Some v) ∈ evs) ∨
    (∃ k reason, b_promise s = Rejected (FetchError reason) ∧ EFetchFail k reason ∈ evs) ∨
    (b_promise s = Rejected SyntaxError ∧ ∃ k, EBody k None ∈ evs) ∨
    (b_promise s = Rejected AbortError ∧ b_aborted s = true ∧
    setTimeout_delay delay ≤ b_now s)).
  { destruct (b_timer s) as [d|] eqn:Htm.
    - destruct (Hon d eq_refl) as (_ & Hph & Hfa & _). left. split; [by apply Hrunning|done].
    - right. destruct (Hdone (Hoff eq_refl))
        as [(k & v & ? & ? & _)|[(k & r & ? & ? & _)|[(? & ? & _)|[? Ht]]]].
      + left. by exists k, v.
      + right. left. by exists k, r.
      + right. right. by left.
      + right. right. right. split_and!; try done. by apply Hab. }
  split; [exact Hcases|].
  intros status body Hpr.
  destruct Hcases as [[? _]|[(? & ? & ? & _)|[(? & ? & ? & _)|[[? _]|[? _]]]]]; congruence.
Qed.

Lemma buffer_call_outcomes_witness :
  ∃ s,
    brun (uploadFromBuffer demo_buffer demo_url 20000)
      [EHeaders 0 500; EBody 0 (Some demo_failure)] = Some s ∧
    b_promise s ≠ Rejected (MaxError 500 demo_failure).
Proof.
  eexists. split; [vm_compute; reflexivity|].
  eapply (buffer_call_outcomes demo_buffer demo_url 20000
            [EHeaders 0 500; EBody 0 (Some demo_failure)]).
  vm_compute. reflexivity.
Defined.

(** X17.  A buffer upload does not outlive its deadline: with a positive
    delay, once that many milliseconds have passed the call is settled
    and its timer is cleared. *)
Theorem buffer_call_meets_deadline f u delay evs s :
  0 < delay →
  brun (uploadFromBuffer f u delay) evs = Some s →
  delay ≤ b_now s →
  b_promise s ≠ Pending ∧ b_timer s = None.
Proof.
  intros Hpos Hrun Hnow.
  destruct (bo_reachable _ _ _ _ _ Hrun) as [Hon Hoff _ Hdone _].
  destruct (b_timer s) as [d|] eqn:Htm.
  - destruct (Hon d eq_refl) as (-> & _ & _ & Hlt).
    pose proof (setTimeout_delay_le delay). lia.
  - split; [|done].
    destruct (Hdone (Hoff eq_refl))
      as [(k & v & ? & _)|[(k & r & ? & _)|[(? & _)|[? _]]]]; congruence.
Qed.

Lemma buffer_call_meets_deadline_witness :
  ∃ s,
    brun (uploadFromBuffer demo_buffer demo_url 20000)
      [EHeaders 0 200; ETick 20000] = Some s ∧
    b_promise s ≠ Pending.
Proof.
  eexists. split; [vm_compute; reflexivity|].
  eapply (buffer_call_meets_deadline demo_buffer demo_url 20000 [EHeaders 0 200; ETick 20000]);
    [lia|vm_compute; reflexivity|by vm_compute].
Defined.

(** X18.  A settled buffer upload is final: afterwards only time can
    pass, and neither the result, nor the request log, nor the signal
    changes. *)
Theorem settled_buffer_call_is_final f u delay evs s evs' s' :
  brun (uploadFromBuffer f u delay) evs = Some s →
  b_promise s ≠ Pending →
  brun s evs' = Some s' →
  Forall (λ e, is_tick e = true) evs' ∧
  b_promise s' = b_promise s ∧
  b_requests s' = b_requests s ∧
  b_aborted s' = b_aborted s.
Proof.
  intros Hrun Hpr Hrun'.
  destruct (bo_reachable _ _ _ _ _ Hrun) as [Hon Hoff Hrunning _ _].
  assert (Hph : b_phase s = BDone).
  { destruct (b_phase s) eqn:E; try done; by destruct Hpr; apply Hrunning. }
  assert (Htm : b_timer s = None).
  { destruct (b_timer s) as [d|] eqn:Htm; [|done].
    by destruct (Hon d eq_refl) as (_ & ? & _). }
  clear Hrun Hon Hoff Hrunning Hpr. revert s s' Hph Htm Hrun'.
  induction evs' as [|e evs' IH]; intros s s' Hph Htm Hrun'; simpl in Hrun'.
  - injection Hrun' as <-. by split_and!.
  - destruct (bstep s e) as [s1|] eqn:Hstep; [|done].
    destruct (done_step _ _ _ Hph Htm Hstep) as (He & Hph1 & Htm1 & Hp1 & Ha1 & Hr1).
    destruct (IH _ _ Hph1 Htm1 Hrun') as (Hall & Hp' & Hr' & Ha').
    split_and!; [by constructor|congruence..].
Qed.

Lemma settled_buffer_call_is_final_witness :
  ∃ s s',
    brun (uploadFromBuffer demo_buffer demo_url 20000)
      [EHeaders 0 200; EBody 0 (Some demo_payload)] = Some s ∧
    brun s [ETick 60000] = Some s' ∧
    b_promise s' = Resolved demo_payload ∧ b_aborted s' = false.
Proof.
  eexists _, _. split; [vm_compute; reflexivity|]. split; [vm_compute; reflexivity|].
  pose proof (λ s s', settled_buffer_call_is_final demo_buffer demo_url 20000
                         [EHeaders 0 200; EBody 0 (Some demo_payload)] s
                         [ETick 60000] s') as H.
  edestruct H as (_ & Hp & _ & Ha);
    [vm_compute; reflexivity|by vm_compute|vm_compute; reflexivity|].
  split; [by rewrite Hp|by rewrite Ha].
Defined.

(** ** [streamToBlob] *)

Lemma trun_snoc mimeType (evs : list Event) (e : Event) : ∀ s s',
  trun mimeType s (evs ++ [e]) = Some s' ↔
  ∃ s1, trun mimeType s evs = Some s1 ∧ tstep mimeType s1 e = Some s'.
Proof.
  induction evs as [|e0 evs IH]; intros s s'; simpl.
  - destruct (tstep mimeType s e) eqn:E; split.
    + intros [= <-]. eauto.
    + intros (s1 & [= <-] & H). congruence.
    + done.
    + intros (s1 & [= <-] & H). congruence.
  - destruct (tstep mimeType s e0) as [s0|]; [apply IH|].
    split; [done|]. by intros (s1 & H & _).
Qed.

Lemma blob_on_end_type mimeType (s : TState) :
  t_promise s = BlobPending →
  t_promise (blob_on_end mimeType s) =
    BlobResolved {| blob_parts := t_chunks s;
                    blob_type := blob_type_for mimeType |}.
Proof.
  intros Hp. unfold blob_on_end, t_settle. rewrite Hp. simpl.
  destruct mimeType as [t|]; [|done]. simpl.
  destruct (String.eqb t EmptyString) eqn:E; [|done].
  apply String.eqb_eq in E. by subst.
Qed.

Lemma tinv_step parts mimeType s e s' :
  TInv parts mimeType s → tstep mimeType s e = Some s' → TInv parts mimeType s'.
Proof.
  intros [Hparts Hlive Hended Hdestroyed] Hstep.
  destruct e; simpl in Hstep; try done; crack Hstep; bools.
  - split; simpl; try done; try congruence.
    by rewrite <- app_assoc.
  - assert (Hp : t_promise s = BlobPending) by auto.
    assert (Hc : t_chunks s = parts).
    { by rewrite Hparts, app_nil_r. }
    pose proof (blob_on_end_type mimeType
      {| t_pending := []; t_ended := true; t_destroyed := t_destroyed s;
         t_chunks := t_chunks s; t_promise := t_promise s |} Hp) as Hres.
    simpl in Hres. rewrite Hc in Hres.
    unfold blob_on_end, t_settle in *. simpl in *. rewrite Hp in *. simpl in *.
    split; simpl; try done; try congruence.
    intros _. rewrite Hc. by split_and!.
  - assert (Hp : t_promise s = BlobPending) by auto.
    unfold t_settle. simpl. rewrite Hp.
    split; simpl; try done; try congruence.
    intros _. split; [done|]. by exists code.
Qed.

Lemma tinv_reachable parts mimeType (evs : list Event) : ∀ s,
  trun mimeType (streamToBlob parts) evs = Some s → TInv parts mimeType s.
Proof.
  induction evs as [|e evs IH] using rev_ind; intros s Hrun.
  - injection Hrun as <-. by split.
  - apply trun_snoc in Hrun as (s1 & Hrun & Hstep).
    eapply tinv_step; eauto.
Qed.

Lemma collect_runs mimeType (pending : list Part) : ∀ s,
  t_pending s = pending → t_ended s = false → t_destroyed s = false →
  ∃ s', trun mimeType s (replicate (length pending) EData ++ [EEnd]) = Some s' ∧
        t_ended s' = true.
Proof.
  induction pending as [|c pending IH]; intros s Hpend Hen Hde; simpl.
  - rewrite Hpend, Hen, Hde. simpl. eexists. split; [done|].
    unfold blob_on_end, t_settle. simpl. by destruct mimeType, (t_promise s); simpl;
      try destruct (negb _).
  - rewrite Hpend, Hen, Hde. simpl. by apply IH.
Qed.

(** X19.  [streamToBlob] on a stream that delivers its chunks and ends
    resolves with a blob made of exactly those chunks, in order; its
    type is the given MIME type as the [Blob] constructor stores it
    (lower-cased, or emptied if it has a character outside
    U+0020..U+007E), and empty when none is given. *)
Theorem stream_to_blob_collects (parts : list Part) (mimeType : option string) :
  ∃ s,
    trun mimeType (streamToBlob parts) (replicate (length parts) EData ++ [EEnd]) = Some s ∧
    t_promise s =
      BlobResolved {| blob_parts := parts;
                      blob_type := blob_type_for mimeType |}.
Proof.
  destruct (collect_runs mimeType parts (streamToBlob parts)) as (s & Hrun & Hen);
    try done.
  exists s. split; [done|].
  by destruct (tinv_ended _ _ _ (tinv_reachable _ _ _ _ Hrun) Hen) as (_ & _ & ?).
Qed.

(** X20.  Whatever the stream does, [streamToBlob] settles at most
    once and only at the stream's end or error: a resolved blob holds
    every chunk of the stream in order, a rejection carries the
    stream's error, and until then the promise is pending while the
    chunks collected so far are an initial segment of the stream. *)
Theorem stream_to_blob_outcomes parts mimeType evs s :
  trun mimeType (streamToBlob parts) evs = Some s →
  parts = t_chunks s ++ t_pending s ∧
  (t_promise s = BlobPending ∧ t_ended s = false ∧ t_destroyed s = false ∨
   t_promise s = BlobResolved {| blob_parts := parts;
                                 blob_type := blob_type_for mimeType |} ∧
     t_ended s = true ∧ t_destroyed s = false ∨
   ∃ code, t_promise s = BlobRejected (FsError code) ∧
           t_destroyed s = true ∧ t_ended s = false).
Proof.
  intros Hrun. destruct (tinv_reachable _ _ _ _ Hrun) as [Hparts Hlive Hended Hdestroyed].
  split; [done|].
  destruct (t_ended s) eqn:Hen.
  - right. left. by destruct (Hended eq_refl) as (? & _ & ?).
  - destruct (t_destroyed s) eqn:Hde.
    + right. right. destruct (Hdestroyed eq_refl) as (_ & code & ?). by exists code.
    + left. split_and!; auto.
Qed.

Lemma stream_to_blob_outcomes_witness :
  ∃ s,
    trun (Some "video/mp4") (streamToBlob demo_parts) [EData; EStreamErr "EIO"] = Some s ∧
    t_promise s = BlobRejected (FsError "EIO") ∧
    demo_parts = t_chunks s ++ t_pending s.
Proof.
  eexists. split; [vm_compute; reflexivity|]. split; [by vm_compute|].
  eapply (stream_to_blob_outcomes demo_parts (Some "video/mp4") [EData; EStreamErr "EIO"]).
  vm_compute. reflexivity.
Defined.

Example blob_type_lowercased : blob_type_for (Some "Video/MP4") = "video/mp4".
Proof. reflexivity. Qed.

Example blob_type_non_ascii_emptied :
  blob_type_for (Some (String (Ascii.ascii_of_nat 233) "/mp4")) = EmptyString.
Proof. reflexivity. Qed.

Example blob_type_absent : blob_type_for None = EmptyString.
Proof. reflexivity. Qed.
